(** * fetch_arxiv: the merge, retention, filtering and tag logic of
    [scripts/fetch_arxiv.py], embedded and verified.

    Conventions of the embedding.
    - A Python [str] is a [string]; one [ascii] stands for one code point
      (code points below 256), so that Python's [<] on [str], lexicographic
      on code points, is [String.ltb].
    - A record of the feed is a Python [dict]; the keys the script reads
      with [.get] are optional fields ([None] = the key is missing, or, for
      ["id"], holds Python's [None]).
    - [by_id] and [uniq] are Python dicts: insertion-ordered, a store to a
      key that is present keeps the key's position.  They are association
      lists here, because [list(d.values())] followed by a stable sort makes
      the insertion order observable.
    - [list.sort(key=..., reverse=True)] is a stable sort: elements with
      equal keys keep their relative order (also under [reverse=True]). *)

From Stdlib Require Import List String Ascii Bool Arith Lia.
From Stdlib Require Import Permutation Sorted OrdersEx RelationClasses Finite.
Import ListNotations.
Open Scope string_scope.

(** ** Strings as Python compares and cuts them *)

Module PyStr.

(** [a < b] on [str]. *)
Definition lt (a b : string) : bool := String.ltb a b.

(** [a > b] on [str]. *)
Definition gt (a b : string) : bool := String.ltb b a.

(** Truthiness of a [str]: [if s:]. *)
Definition truthy (s : string) : bool := negb (s =? "").

(** [c in s] for a one-character [c]. *)
Fixpoint contains (c : ascii) (s : string) : bool :=
  match s with
  | EmptyString => false
  | String a s' => (a =? c)%char || contains c s'
  end.

(** [s.split(sep)] for a one-character separator. *)
Fixpoint split (sep : ascii) (s : string) : list string :=
  match s with
  | EmptyString => [EmptyString]
  | String a s' =>
      if (a =? sep)%char then EmptyString :: split sep s'
      else match split sep s' with
           | h :: t => String a h :: t
           | [] => [String a EmptyString]
           end
  end.

(** [s.replace(c, by)] for a one-character [c]. *)
Fixpoint replace (c : ascii) (by_ : string) (s : string) : string :=
  match s with
  | EmptyString => EmptyString
  | String a s' =>
      if (a =? c)%char then by_ ++ replace c by_ s'
      else String a (replace c by_ s')
  end.

(** The code points below 256 that [str.strip()] removes:
    U+0009..U+000D, U+001C..U+0020, U+0085 and U+00A0. *)
Definition is_space (c : ascii) : bool :=
  let n := nat_of_ascii c in
  (((9 <=? n) && (n <=? 13)) || ((28 <=? n) && (n <=? 32))
   || (n =? 133) || (n =? 160))%nat.

Fixpoint lstrip (s : string) : string :=
  match s with
  | EmptyString => EmptyString
  | String a s' => if is_space a then lstrip s' else s
  end.

Fixpoint rstrip (s : string) : string :=
  match s with
  | EmptyString => EmptyString
  | String a s' =>
      let r := rstrip s' in
      if is_space a && (r =? "") then EmptyString else String a r
  end.

(** [s.strip()]. *)
Definition strip (s : string) : string := rstrip (lstrip s).

End PyStr.

(** ** Insertion-ordered dictionaries with [str] keys *)

Module Dict.
Section Dict.
Context {V : Type}.

Definition t : Type := list (string * V).

Definition empty : t := [].

(** [d.get(k)] / [d[k]]. *)
Fixpoint get (k : string) (d : t) : option V :=
  match d with
  | [] => None
  | (k', v) :: d' => if k =? k' then Some v else get k d'
  end.

(** [k in d]. *)
Definition mem (k : string) (d : t) : bool :=
  match get k d with Some _ => true | None => false end.

(** [d[k] = v]: overwrite in place when [k] is present, append otherwise. *)
Fixpoint setitem (k : string) (v : V) (d : t) : t :=
  match d with
  | [] => [(k, v)]
  | (k', v') :: d' =>
      if k =? k' then (k', v) :: d' else (k', v') :: setitem k v d'
  end.

Definition keys (d : t) : list string := map fst d.

(** [list(d.values())]. *)
Definition values (d : t) : list V := map snd d.

End Dict.
Arguments t : clear implicits.
End Dict.

(** ** Records *)

Record entry : Type := mkEntry {
  id : option string;
  title : string;
  date : option string;
  tags : list string;
  authors : list string;
  institution : string;
  link : option string;
  abstract : string;
  fetched_at : option string
}.

(** [e.get(k, '')]. *)
Definition get_or_empty (f : option string) : string :=
  match f with Some s => s | None => "" end.

(** [e.get('id')] when it is truthy: the key under which [e] is stored. *)
Definition id_key (e : entry) : option string :=
  match id e with
  | Some s => if PyStr.truthy s then Some s else None
  | None => None
  end.

(** ** The store merger *)

Definition KEEP_MAX : nat := 600.

(** [sort_key]: the pair [(x.get('date', ''), x.get('fetched_at', ''))]. *)
Definition sort_key (x : entry) : string * string :=
  (get_or_empty (date x), get_or_empty (fetched_at x)).

(** [<] on pairs of [str]: the first components decide unless equal. *)
Definition key_lt (a b : string * string) : bool :=
  PyStr.lt (fst a) (fst b) || ((fst a =? fst b) && PyStr.lt (snd a) (snd b)).

(** [l.sort(key=sort_key, reverse=True)], as the stable sort it is: [x] is
    put in front of the first element whose key is not greater than its own,
    so it stays in front of the later elements with an equal key. *)
Fixpoint insert_desc (x : entry) (l : list entry) : list entry :=
  match l with
  | [] => [x]
  | y :: l' =>
      if key_lt (sort_key x) (sort_key y) then y :: insert_desc x l'
      else x :: l
  end.

Fixpoint sort_desc (l : list entry) : list entry :=
  match l with
  | [] => []
  | x :: l' => insert_desc x (sort_desc l')
  end.

(** [{e['id']: e for e in old if e.get('id')}]. *)
Definition index_step (by_id : Dict.t entry) (e : entry) : Dict.t entry :=
  match id_key e with
  | Some k => Dict.setitem k e by_id
  | None => by_id
  end.

Definition index_by_id (old : list entry) : Dict.t entry :=
  fold_left index_step old Dict.empty.

(** The body of [for e in new]. The comparison is between two [str], which
    cannot raise, so the [except] branch is never taken. *)
Definition merge_step (by_id : Dict.t entry) (e : entry) : Dict.t entry :=
  match id_key e with
  | None => by_id
  | Some k =>
      match Dict.get k by_id with
      | Some cur =>
          if PyStr.gt (get_or_empty (fetched_at e))
                      (get_or_empty (fetched_at cur))
          then Dict.setitem k e by_id
          else by_id
      | None => Dict.setitem k e by_id
      end
  end.

(** [by_id] when the loop over [new] ends. *)
Definition merged_by_id (old new : list entry) : Dict.t entry :=
  fold_left merge_step new (index_by_id old).

Definition merge_and_dedupe (old new : list entry) : list entry :=
  firstn KEEP_MAX (sort_desc (Dict.values (merged_by_id old new))).

(** ** The run: first-seen deduplication and the date filter of [main] *)

(** [uniq]: [if e.get('id') and e['id'] not in uniq: uniq[e['id']] = e]. *)
Definition uniq_step (uniq : Dict.t entry) (e : entry) : Dict.t entry :=
  match id_key e with
  | Some k => if Dict.mem k uniq then uniq else Dict.setitem k e uniq
  | None => uniq
  end.

(** [new_list = list(uniq.values())]. *)
Definition new_list (all_new : list entry) : list entry :=
  Dict.values (fold_left uniq_step all_new Dict.empty).

(** A [datetime.date]. *)
Record pydate : Type := mkDate { year : nat; month : nat; day : nat }.

Definition pydate_eqb (a b : pydate) : bool :=
  ((year a =? year b) && (month a =? month b) && (day a =? day b))%nat.

Section DateFilter.

(** [datetime.fromisoformat(s).date()], [None] when it raises. *)
Variable fromisoformat_date : string -> option pydate.

(** One turn of [for e in new_list]: is [e] appended? *)
Definition from_yesterday (yesterday : pydate) (e : entry) : bool :=
  let pub_str := get_or_empty (date e) in
  if negb (PyStr.truthy pub_str) then false
  else
    match fromisoformat_date pub_str with
    | Some pub_date => pydate_eqb pub_date yesterday
    | None =>
        match fromisoformat_date
                (PyStr.replace "Z" "+00:00" (get_or_empty (fetched_at e)))
        with
        | Some pub_date => pydate_eqb pub_date yesterday
        | None => false
        end
    end.

(** [new_list_filtered]. *)
Definition new_list_filtered (yesterday : pydate) (l : list entry)
  : list entry :=
  filter (from_yesterday yesterday) l.

End DateFilter.

(** A parser to run the filter with: the calendar-date formats the script
    itself writes, [YYYY-MM-DD] alone or followed by one separator character
    and [HH:MM:SS], an optional [.ffffff] and an optional [+HH:MM] or
    [-HH:MM].  CPython accepts these (and, from 3.11 on, more). *)
Module Iso.

Definition digit (c : ascii) : option nat :=
  let n := nat_of_ascii c in
  if ((48 <=? n) && (n <=? 57))%nat then Some (n - 48) else None.

Definition all_digits (cs : list ascii) : bool :=
  forallb (fun c => match digit c with Some _ => true | None => false end)
          cs.

Fixpoint number (acc : nat) (cs : list ascii) : option nat :=
  match cs with
  | [] => Some acc
  | c :: cs' =>
      match digit c with
      | Some d => number (10 * acc + d) cs'
      | None => None
      end
  end.

Definition leap (y : nat) : bool :=
  ((y mod 4 =? 0) && (negb (y mod 100 =? 0) || (y mod 400 =? 0)))%nat.

Definition days_in_month (y m : nat) : nat :=
  match m with
  | 2 => if leap y then 29 else 28
  | 4 | 6 | 9 | 11 => 30
  | _ => 31
  end.

Definition in_range (lo hi : nat) (o : option nat) : bool :=
  match o with
  | Some n => ((lo <=? n) && (n <=? hi))%nat
  | None => false
  end.

Definition hh_mm (h1 h2 m1 m2 : ascii) : bool :=
  in_range 0 23 (number 0 [h1; h2]) && in_range 0 59 (number 0 [m1; m2]).

Definition offset_ok (cs : list ascii) : bool :=
  match cs with
  | [] => true
  | [sg; h1; h2; ":"; m1; m2]%char =>
      ((sg =? "+") || (sg =? "-"))%char && hh_mm h1 h2 m1 m2
  | _ => false
  end.

Definition fraction_ok (cs : list ascii) : bool :=
  match cs with
  | ("."%char :: f1 :: f2 :: f3 :: f4 :: f5 :: f6 :: rest) =>
      all_digits [f1; f2; f3; f4; f5; f6] && offset_ok rest
  | _ => offset_ok cs
  end.

Definition time_ok (cs : list ascii) : bool :=
  match cs with
  | (h1 :: h2 :: ":" :: m1 :: m2 :: ":" :: s1 :: s2 :: rest)%char =>
      hh_mm h1 h2 m1 m2 && in_range 0 59 (number 0 [s1; s2])
      && fraction_ok rest
  | _ => false
  end.

Definition fromisoformat_date (s : string) : option pydate :=
  match list_ascii_of_string s with
  | (y1 :: y2 :: y3 :: y4 :: "-" :: m1 :: m2 :: "-" :: d1 :: d2 :: rest)%char =>
      match number 0 [y1; y2; y3; y4], number 0 [m1; m2], number 0 [d1; d2]
      with
      | Some y, Some m, Some d =>
          if ((1 <=? y) && (1 <=? m) && (m <=? 12)
              && (1 <=? d) && (d <=? days_in_month y m))%nat
             && match rest with
                | [] => true
                | _ :: time => time_ok time
                end
          then Some (mkDate y m d)
          else None
      | _, _, _ => None
      end
  | _ => None
  end.

End Iso.

(** ** Tag extraction in [parse_atom] *)

(** [tags]: every category code, followed by [c.split('.')[-1]] when the
    code has a dot. *)
Definition tags_step (tags : list string) (c : string) : list string :=
  if PyStr.truthy c then
    if PyStr.contains "." c
    then (tags ++ [c; last (PyStr.split "." c) ""])%list
    else (tags ++ [c])%list
  else tags.

Definition raw_tags (cats : list string) : list string :=
  fold_left tags_step cats [].

(** [tags_clean]: the state of the loop is the set [seen] and the list
    built so far. *)
Definition clean_step (st : list string * list string) (t : string)
  : list string * list string :=
  let tt := PyStr.strip t in
  if PyStr.truthy tt && negb (existsb (String.eqb tt) (fst st))
  then (tt :: fst st, (snd st ++ [tt])%list)
  else st.

Definition tags_clean (tags : list string) : list string :=
  snd (fold_left clean_step tags ([], [])).

Definition entry_tags (cats : list string) : list string :=
  tags_clean (raw_tags cats).

(** ** Loading the store *)

(** What [except Exception] catches. *)
Inductive exn : Type :=
| OSError
| UnicodeDecodeError
| JSONDecodeError.

Inductive result (A : Type) : Type :=
| Ok (a : A)
| Raise (e : exn).
Arguments Ok {A} a.
Arguments Raise {A} e.

Definition bind {A B : Type} (m : result A) (k : A -> result B) : result B :=
  match m with
  | Ok a => k a
  | Raise e => Raise e
  end.

(** [try: m  except Exception: handler]. *)
Definition try_except {A : Type} (m : result A) (handler : result A)
  : result A :=
  match m with
  | Ok a => Ok a
  | Raise _ => handler
  end.

Notation "x <- m ;; k" := (bind m (fun x => k))
  (at level 61, m at next level, right associativity).

(** The file at [OUTPUT_FILE] as a run finds it. *)
Record store_file : Type := mkStore {
  path_exists : bool;            (* os.path.exists(OUTPUT_FILE) *)
  read_text : result string      (* open(..., 'r', encoding='utf-8') and read *)
}.

Section Load.

(** [json.load]: the decoded document, or the exception it raises. *)
Variable json_load : string -> result (list entry).

Definition load_existing (f : store_file) : result (list entry) :=
  if negb (path_exists f) then Ok []
  else try_except (text <- read_text f ;; json_load text) (Ok []).

End Load.

(** ** Orders and reference functions the statements use *)

(** [a] may stand before [b] in the sorted collection: the key of [a] is
    not smaller than the key of [b]. *)
Definition desc (a b : entry) : Prop :=
  key_lt (sort_key a) (sort_key b) = false.

(** The order in words: [date] descending, ties broken by [fetched_at]
    descending, both as plain strings. *)
Definition date_then_fetched_desc (a b : entry) : Prop :=
  PyStr.lt (get_or_empty (date b)) (get_or_empty (date a)) = true
  \/ (get_or_empty (date a) = get_or_empty (date b)
      /\ PyStr.lt (get_or_empty (fetched_at a))
                  (get_or_empty (fetched_at b)) = false).

(** Is [e] stored under [k]? *)
Definition has_key (k : string) (e : entry) : bool :=
  match id_key e with
  | Some k' => k =? k'
  | None => false
  end.

(** The holder of an id after one more record with that id came in: the
    newcomer takes the place only when its [fetched_at] is strictly
    greater. *)
Definition pick (cur : option entry) (e : entry) : option entry :=
  match cur with
  | None => Some e
  | Some c =>
      if PyStr.gt (get_or_empty (fetched_at e)) (get_or_empty (fetched_at c))
      then Some e
      else Some c
  end.

(** The record of the existing collection stored under [k]: the last one
    with that id. *)
Definition holder (k : string) (old : list entry) : option entry :=
  fold_left (fun _ e => Some e) (filter (has_key k) old) None.

(** The record the merge keeps for [k]. *)
Definition winner (k : string) (old new : list entry) : option entry :=
  fold_left pick (filter (has_key k) new) (holder k old).

(** A record with its key, as [by_id] stores it. *)
Definition kv (e : entry) : string * entry := (get_or_empty (id e), e).

(** The invariant of [by_id] and [uniq]: no key twice, and every record is
    stored under its own truthy id. *)
Definition well_keyed (d : Dict.t entry) : Prop :=
  NoDup (Dict.keys d) /\ forall k e, In (k, e) d -> id_key e = Some k.

(** What the cap drops: the tail of the sorted merged set. *)
Definition dropped_by_cap (old new : list entry) : list entry :=
  skipn KEEP_MAX (sort_desc (Dict.values (merged_by_id old new))).

(** Records that all carry a truthy id, no id twice. *)
Definition distinct_ids (l : list entry) : Prop :=
  NoDup (map id_key l) /\ Forall (fun e => id_key e <> None) l.

(** ** Sample records *)

(** A record with the fields the merge reads; the others are empty. *)
Definition paper (i d f t : string) : entry :=
  mkEntry (Some i) t (Some d) [] [] "" None "" (Some f).

Definition stored : entry :=
  paper "2510.00001v1" "2025-10-25" "2025-10-26T06:00:00.000000Z" "stored".

(** The same id fetched earlier, with another title. *)
Definition refetched_older : entry :=
  paper "2510.00001v1" "2025-10-25" "2025-10-25T06:00:00.000000Z" "incoming".

(** The same id fetched later. *)
Definition refetched_newer : entry :=
  paper "2510.00001v1" "2025-10-25" "2025-10-27T06:00:00.000000Z" "incoming".

Definition other_paper : entry :=
  paper "2510.00002v1" "2025-10-26" "2025-10-27T06:00:00.000000Z" "other".


(** A store at the cap: 599 records of one day and, last, a record with an
    old [date] that was fetched most recently. *)
Definition two_letters (n : nat) : string :=
  String (ascii_of_nat (97 + n / 26))
         (String (ascii_of_nat (97 + n mod 26)) EmptyString).

Definition filler (n : nat) : entry :=
  paper ("2510.1" ++ two_letters n) "2025-10-20"
        "2025-10-21T06:00:00.000000Z" "filler".

Definition stale : entry :=
  paper "2401.00001v1" "2024-01-01" "2025-10-27T06:00:00.000000Z" "stale".

(** The id of [stale] again, fetched earlier, with a recent [date]. *)
Definition fresh : entry :=
  paper "2401.00001v1" "2025-10-26" "2025-10-26T06:00:00.000000Z" "fresh".

Definition full_store : list entry :=
  (map filler (seq 0 599) ++ [stale])%list.

Definition batch : list entry := [fresh; other_paper].


(** The records of the date filter's example, target day 2025-10-26. *)
Definition dated_27 : entry :=
  paper "2510.00003v1" "2025-10-27" "2025-10-28T06:00:00.000000Z" "a".

Definition dated_26 : entry :=
  paper "2510.00004v1" "2025-10-26" "2025-10-28T06:00:00.000000Z" "b".

Definition undated : entry :=
  paper "2510.00005v1" "" "2025-10-26T06:00:00.000000Z" "c".

(** A [date] that is there and does not parse, as [parse_atom] leaves it
    when [published] is no ISO timestamp. *)
Definition oddly_dated : entry :=
  paper "2510.00006v1" "26 Oct 2025" "2025-10-26T06:00:00.000000Z" "d".

Definition day_26 : pydate := mkDate 2025 10 26.

(** ** Tag extraction in the specification's words *)

(** [c.split('.')[-1]]. *)
Definition suffix (c : string) : string := last (PyStr.split "." c) "".

(** What one category code contributes. *)
Definition emit (c : string) : list string :=
  if PyStr.contains "." c then [c; suffix c] else [c].

(** Deduplication that keeps the first occurrence of every element. *)
Fixpoint first_seen (l : list string) : list string :=
  match l with
  | [] => []
  | x :: l' => x :: filter (fun y => negb (y =? x)) (first_seen l')
  end.

(** The tags as the claim words them: the contributions of the codes in
    order, deduplicated. *)
Definition tags_as_claimed (cats : list string) : list string :=
  first_seen (flat_map emit cats).

(** The tags as the code computes them: empty codes contribute nothing,
    every tag is stripped, empty tags are dropped. *)
Definition tags_stripped (cats : list string) : list string :=
  first_seen
    (filter PyStr.truthy
            (map PyStr.strip (flat_map emit (filter PyStr.truthy cats)))).


(** A decoder to run [load_existing] with: it knows the empty array and
    rejects everything else. *)
Definition decode_empty_array (text : string) : result (list entry) :=
  if text =? "[]" then Ok [] else Raise JSONDecodeError.

Definition absent_file : store_file := mkStore false (Raise OSError).

Definition unreadable_file : store_file := mkStore true (Raise OSError).

Definition corrupt_file : store_file := mkStore true (Ok "[{").


(** ** The record normalizer: [safe_text] and the body of [parse_atom] *)

(** What [find] gives: [None] when there is no such element, else the
    element's [.text], itself [None] or a [str]. *)
Definition elem : Type := option (option string).

(** [(elem.text or "").strip() if elem is not None else ""]. *)
Definition safe_text (e : elem) : string :=
  match e with
  | Some text => PyStr.strip (get_or_empty text)
  | None => ""
  end.

(** [s.rsplit(sep, 1)] for a one-character separator: cut at the last
    [sep], if there is one. *)
Fixpoint rsplit1 (sep : ascii) (s : string) : list string :=
  match s with
  | EmptyString => [EmptyString]
  | String a s' =>
      match rsplit1 sep s' with
      | h :: t :: _ => [String a h; t]
      | _ => if (a =? sep)%char then [EmptyString; s'] else [s]
      end
  end.

(** [s.lower()] on code points below 256: [A]..[Z] and U+00C0..U+00DE
    without U+00D7 move up by 32. *)
Definition lower_char (c : ascii) : ascii :=
  let n := nat_of_ascii c in
  if (((65 <=? n) && (n <=? 90))
      || ((192 <=? n) && (n <=? 222) && negb (n =? 215)))%nat
  then ascii_of_nat (n + 32)
  else c.

Fixpoint lower (s : string) : string :=
  match s with
  | EmptyString => EmptyString
  | String a s' => String (lower_char a) (lower s')
  end.

(** [p in s] on [str]: [p] occurs in [s]. *)
Fixpoint is_in (p s : string) : bool :=
  String.prefix p s
  || match s with
     | EmptyString => false
     | String _ s' => is_in p s'
     end.

(** [sorted(l)] on [str]: ascending, stable. *)
Fixpoint insert_asc (x : string) (l : list string) : list string :=
  match l with
  | [] => [x]
  | y :: l' => if PyStr.lt y x then y :: insert_asc x l' else x :: l
  end.

Fixpoint sorted (l : list string) : list string :=
  match l with
  | [] => []
  | x :: l' => insert_asc x (sorted l')
  end.

(** [s.add(x)] on a [set] of [str], kept as a list without repeats; the
    script only reads the set through [sorted] and its truth value. *)
Definition set_add (x : string) (s : list string) : list string :=
  if existsb (String.eqb x) s then s else (s ++ [x])%list.

Record atom_author : Type := mkAuthor {
  author_name : elem;          (* author.find('atom:name', ns) *)
  author_affiliation : elem    (* author.find('arxiv:affiliation', ns) *)
}.

(** A [link] element: its [type] and [href] attributes, when present. *)
Record atom_link : Type := mkLink {
  link_type : option string;
  link_href : option string
}.

(** One [atom:entry] of the feed, as [parse_atom] reads it. *)
Record atom_entry : Type := mkAtom {
  atom_id : elem;
  atom_title : elem;
  atom_summary : elem;
  atom_published : elem;
  atom_authors : list atom_author;
  atom_categories : list (option string);   (* the [term] attributes *)
  atom_links : list atom_link
}.

(** [raw_id.rsplit('/', 1)[-1] if raw_id else None]. *)
Definition arxiv_id_of (raw_id : string) : option string :=
  if PyStr.truthy raw_id then Some (last (rsplit1 "/" raw_id) "") else None.

(** [safe_text(e).replace('\n', ' ').strip()]. *)
Definition one_line (e : elem) : string :=
  PyStr.strip (PyStr.replace "010" " " (safe_text e)).

(** [authors]: the names that are not empty. *)
Definition authors_of (l : list atom_author) : list string :=
  filter PyStr.truthy (map (fun a => safe_text (author_name a)) l).

(** One turn of the loop over the authors, for [affiliations]. *)
Definition affiliation_step (affiliations : list string) (a : atom_author)
  : list string :=
  match author_affiliation a with
  | Some (Some text) =>
      if PyStr.truthy text && PyStr.truthy (PyStr.strip text)
      then set_add (PyStr.strip text) affiliations
      else affiliations
  | _ => affiliations
  end.

Definition affiliations_of (l : list atom_author) : list string :=
  fold_left affiliation_step l [].

(** [cats]: the [term] attributes that are there and not empty. *)
Definition cats_of (l : list (option string)) : list string :=
  filter PyStr.truthy (map get_or_empty l).

(** The loop over the links: the [href] of the first link of type
    [application/pdf] with a non-empty [href]. *)
Definition is_pdf_link (l : atom_link) : bool :=
  (get_or_empty (link_type l) =? "application/pdf")
  && PyStr.truthy (get_or_empty (link_href l)).

Definition pdf_link_of (links : list atom_link) (arxiv_id : option string)
  : option string :=
  match find is_pdf_link links with
  | Some l => Some (get_or_empty (link_href l))
  | None =>
      match arxiv_id with
      | Some i =>
          if PyStr.truthy i then Some ("https://arxiv.org/pdf/" ++ i)
          else None
      | None => None
      end
  end.

Definition fallback_orgs : list string :=
  ["Google"; "DeepMind"; "Microsoft"; "Meta"; "OpenAI"; "CMU"; "MIT";
   "Stanford"; "Huawei"; "HiSilicon"; "ETH Zurich"; "EPFL"].

(** [institution]: the declared affiliations, or the known names found in
    title and summary. *)
Definition institution_of (affiliations : list string)
           (title summary : string) : string :=
  let institution :=
    match affiliations with
    | [] => ""
    | _ => String.concat ", " (sorted affiliations)
    end in
  if PyStr.truthy institution then institution
  else
    let st := lower (title ++ " " ++ summary) in
    String.concat ", " (filter (fun org => is_in (lower org) st)
                               fallback_orgs).

Section Normalizer.

(** [datetime.fromisoformat(s).date()], [None] when it raises, and
    [d.isoformat()]. *)
Variable fromisoformat_date : string -> option pydate.
Variable isoformat : pydate -> string.

(** [date]: the day of [published], or what stands before its first [T]. *)
Definition date_of (published : string) : string :=
  if PyStr.truthy published then
    match fromisoformat_date (PyStr.replace "Z" "+00:00" published) with
    | Some d => isoformat d
    | None =>
        if PyStr.contains "T" published
        then hd "" (PyStr.split "T" published)
        else published
    end
  else "".

(** [entry_obj] for one feed entry; [now] is what
    [datetime.now(timezone.utc).isoformat().replace('+00:00', 'Z')] gives
    when the entry is built. *)
Definition entry_obj (x : atom_entry) (now : string) : entry :=
  let arxiv_id := arxiv_id_of (safe_text (atom_id x)) in
  let title := one_line (atom_title x) in
  let summary := one_line (atom_summary x) in
  mkEntry arxiv_id
          title
          (Some (date_of (safe_text (atom_published x))))
          (entry_tags (cats_of (atom_categories x)))
          (authors_of (atom_authors x))
          (institution_of (affiliations_of (atom_authors x)) title summary)
          (pdf_link_of (atom_links x) arxiv_id)
          summary
          (Some now).

(** [parse_atom] on the entries of a parsed feed, each with the clock
    reading at its turn. *)
Definition parse_atom (feed : list (atom_entry * string)) : list entry :=
  map (fun xn => entry_obj (fst xn) (snd xn)) feed.

End Normalizer.

(** [date.isoformat()]: [YYYY-MM-DD], zero-padded. *)
Definition digit_char (n : nat) : ascii := ascii_of_nat (48 + n mod 10).

Definition isoformat (d : pydate) : string :=
  let y := year d in
  let m := month d in
  let dd := day d in
  String (digit_char (y / 1000))
    (String (digit_char (y / 100))
      (String (digit_char (y / 10))
        (String (digit_char y)
          (String "-"
            (String (digit_char (m / 10))
              (String (digit_char m)
                (String "-"
                  (String (digit_char (dd / 10))
                    (String (digit_char dd) EmptyString))))))))).

(** ** The run *)

(** The loop over [QUERIES]: a query that raises adds nothing. *)
Definition collect_step (all_new : list entry) (r : result (list entry))
  : list entry :=
  match r with
  | Ok ents => (all_new ++ ents)%list
  | Raise _ => all_new
  end.

Definition collect (results : list (result (list entry))) : list entry :=
  fold_left collect_step results [].

Section Run.

Variable fromisoformat_date : string -> option pydate.
Variable json_load : string -> result (list entry).
Variable json_dump : list entry -> string.

(** The collection [main] hands to [save_entries]. *)
Definition main_merged (yesterday : pydate) (store : store_file)
           (results : list (result (list entry))) : result (list entry) :=
  let all_new := collect results in
  let new_list_filtered :=
    new_list_filtered fromisoformat_date yesterday (new_list all_new) in
  existing <- load_existing json_load store ;;
  Ok (merge_and_dedupe existing new_list_filtered).



End Run.

(** A raw feed entry to run the normalizer on. *)
Definition raw_paper : atom_entry :=
  mkAtom (Some (Some "http://arxiv.org/abs/2510.00007v1"))
         (Some (Some "  Agents at
  Stanford "))
         (Some (Some "We study LLM agents."))
         (Some (Some "2025-10-26T17:59:59Z"))
         [mkAuthor (Some (Some "A. Author")) (Some (Some " MIT "));
          mkAuthor (Some (Some "B. Author")) (Some (Some "CMU"));
          mkAuthor (Some None) None]
         [Some "cs.AI"; None; Some "cs.CL"]
         [mkLink (Some "text/html") (Some "http://arxiv.org/abs/2510.00007v1");
          mkLink (Some "application/pdf")
                 (Some "http://arxiv.org/pdf/2510.00007v1")].


(** The truthy ids of a list of records, in order, with repeats. *)
Definition truthy_ids (l : list entry) : list string :=
  flat_map (fun e => match id_key e with Some k => [k] | None => [] end) l.


(** What all three loops do to the keys. *)
Definition appends_new_keys (step : Dict.t entry -> entry -> Dict.t entry)
  : Prop :=
  forall d e,
    Dict.keys (step d e)
    = (Dict.keys d
       ++ match id_key e with
          | Some k => if Dict.mem k d then [] else [k]
          | None => []
          end)%list.

(** The store a run loads: what [load_existing] returns, [[]] on failure. *)
Definition loaded (json_load : string -> result (list entry))
           (store : store_file) : list entry :=
  match load_existing json_load store with
  | Ok existing => existing
  | Raise _ => []
  end.

(** The records a run fetched: those of the queries that did not raise. *)
Definition fetched (results : list (result (list entry))) : list entry :=
  flat_map (fun r => match r with Ok ents => ents | Raise _ => [] end)
           results.

(** The affiliation an author declares, when it is not blank. *)
Definition declared (a : atom_author) (t : string) : Prop :=
  exists text, author_affiliation a = Some (Some text)
               /\ t = PyStr.strip text /\ t <> "".

(** ** Strings are totally ordered *)

Lemma str_compare_OT (a b : string) :
  String.compare a b = String_as_OT.compare a b.
Proof.
  reflexivity.
Qed.

Lemma str_lt_iff (a b : string) :
  PyStr.lt a b = true <-> String_as_OT.lt a b.
Proof.
  unfold PyStr.lt, String.ltb, String_as_OT.lt. rewrite str_compare_OT.
  destruct (String_as_OT.compare a b); split; congruence.
Qed.

Lemma str_lt_irrefl (a : string) : PyStr.lt a a = false.
Proof.
  destruct (PyStr.lt a a) eqn:E; auto.
  apply str_lt_iff in E. exfalso. exact (irreflexivity E).
Qed.

Lemma str_lt_trans (a b c : string) :
  PyStr.lt a b = true -> PyStr.lt b c = true -> PyStr.lt a c = true.
Proof.
  rewrite !str_lt_iff. apply String_as_OT.lt_strorder.
Qed.

Lemma str_trichotomy (a b : string) :
  PyStr.lt a b = true \/ a = b \/ PyStr.lt b a = true.
Proof.
  rewrite !str_lt_iff.
  destruct (String_as_OT.compare_spec a b); auto.
Qed.

Lemma str_lt_asym (a b : string) :
  PyStr.lt a b = true -> PyStr.lt b a = false.
Proof.
  intros H. destruct (PyStr.lt b a) eqn:E; auto.
  pose proof (str_lt_trans _ _ _ H E) as F. rewrite str_lt_irrefl in F.
  discriminate.
Qed.

(** [a < c] puts any [b] above [a] or below [c]. *)
Lemma str_lt_cotrans (a b c : string) :
  PyStr.lt a c = true -> PyStr.lt a b = true \/ PyStr.lt b c = true.
Proof.
  intros H. destruct (str_trichotomy a b) as [L | [-> | G]]; auto.
  right. eapply str_lt_trans; eauto.
Qed.

(** [>=] is transitive. *)
Lemma str_ge_trans (a b c : string) :
  PyStr.lt a b = false -> PyStr.lt b c = false -> PyStr.lt a c = false.
Proof.
  intros H1 H2. destruct (PyStr.lt a c) eqn:E; auto.
  destruct (str_lt_cotrans a b c E); congruence.
Qed.


(** ** Sort keys are totally ordered *)

Lemma key_lt_irrefl (a : string * string) : key_lt a a = false.
Proof.
  unfold key_lt. rewrite !str_lt_irrefl, andb_false_r. reflexivity.
Qed.

Lemma key_lt_cases (a b : string * string) :
  key_lt a b = true <->
  PyStr.lt (fst a) (fst b) = true
  \/ (fst a = fst b /\ PyStr.lt (snd a) (snd b) = true).
Proof.
  unfold key_lt. rewrite orb_true_iff, andb_true_iff, String.eqb_eq.
  reflexivity.
Qed.

Lemma key_lt_cotrans (a b c : string * string) :
  key_lt a c = true -> key_lt a b = true \/ key_lt b c = true.
Proof.
  rewrite !key_lt_cases. intros [H | [E H]].
  - destruct (str_lt_cotrans _ (fst b) _ H); auto.
  - destruct (str_trichotomy (fst a) (fst b)) as [L | [E' | G]]; auto.
    + destruct (str_lt_cotrans _ (snd b) _ H); auto.
      right. right. split; congruence.
    + right. left. congruence.
Qed.

Lemma key_lt_asym (a b : string * string) :
  key_lt a b = true -> key_lt b a = false.
Proof.
  intros H. destruct (key_lt b a) eqn:E; auto.
  rewrite key_lt_cases in H, E.
  destruct H as [H | [H1 H2]], E as [E | [E1 E2]].
  - rewrite (str_lt_asym _ _ H) in E. discriminate.
  - rewrite E1, str_lt_irrefl in H. discriminate.
  - rewrite H1, str_lt_irrefl in E. discriminate.
  - rewrite (str_lt_asym _ _ H2) in E2. discriminate.
Qed.

Lemma key_ge_trans (a b c : string * string) :
  key_lt a b = false -> key_lt b c = false -> key_lt a c = false.
Proof.
  intros H1 H2. destruct (key_lt a c) eqn:E; auto.
  destruct (key_lt_cotrans a b c E); congruence.
Qed.


Lemma desc_trans (a b c : entry) : desc a b -> desc b c -> desc a c.
Proof. unfold desc. apply key_ge_trans. Qed.

Lemma desc_refl (a : entry) : desc a a.
Proof. apply key_lt_irrefl. Qed.

(** [desc] is the order the specification words describe. *)
Lemma desc_in_words (a b : entry) : desc a b <-> date_then_fetched_desc a b.
Proof.
  unfold desc, date_then_fetched_desc, key_lt, sort_key. simpl.
  set (da := get_or_empty (date a)). set (db := get_or_empty (date b)).
  set (fa := get_or_empty (fetched_at a)).
  set (fb := get_or_empty (fetched_at b)).
  rewrite orb_false_iff, andb_false_iff, String.eqb_neq. split.
  - intros [H1 [H2 | H2]].
    + destruct (str_trichotomy da db) as [L | [E | G]];
        [congruence | contradiction | auto].
    + destruct (str_trichotomy da db) as [L | [E | G]];
        [congruence | auto | auto].
  - intros [H | [E H]].
    + split; [now apply str_lt_asym |].
      left. intros E. rewrite E, str_lt_irrefl in H. discriminate.
    + split; [rewrite E; apply str_lt_irrefl | now right].
Qed.

(** ** The stable descending sort *)

Section Sorting.

Lemma insert_desc_perm (x : entry) (l : list entry) :
  Permutation (x :: l) (insert_desc x l).
Proof.
  induction l as [|y l IH]; simpl; auto.
  destruct (key_lt (sort_key x) (sort_key y)); auto.
  rewrite perm_swap. now constructor.
Qed.

Lemma sort_desc_perm (l : list entry) : Permutation l (sort_desc l).
Proof.
  induction l as [|x l IH]; simpl; auto.
  rewrite <- insert_desc_perm. now constructor.
Qed.

Lemma insert_desc_sorted (x : entry) (l : list entry) :
  StronglySorted desc l -> StronglySorted desc (insert_desc x l).
Proof.
  induction 1 as [|y l Hs IH Hy]; simpl.
  - repeat constructor.
  - destruct (key_lt (sort_key x) (sort_key y)) eqn:E.
    + constructor; auto.
      rewrite <- insert_desc_perm. constructor; auto.
      now apply key_lt_asym.
    + constructor; [now constructor |].
      constructor; auto.
      eapply Forall_impl; [| exact Hy].
      intros z Hz. eapply desc_trans; eauto.
Qed.

Lemma sort_desc_sorted (l : list entry) : StronglySorted desc (sort_desc l).
Proof.
  induction l; simpl; [constructor | now apply insert_desc_sorted].
Qed.

(** Sorting what is sorted changes nothing: the sort is stable. *)
Lemma sort_desc_fixed (l : list entry) :
  StronglySorted desc l -> sort_desc l = l.
Proof.
  induction 1 as [|x l Hs IH Hx]; simpl; auto.
  rewrite IH. destruct l as [|y l]; simpl; auto.
  inversion Hx as [|? ? Hxy _]; subst. unfold desc in Hxy.
  now rewrite Hxy.
Qed.

(** Stability: the records of one key keep their order. *)
Lemma insert_desc_stable (k : string * string) (x : entry) (l : list entry) :
  let same e := negb (key_lt (sort_key e) k) && negb (key_lt k (sort_key e))
  in
  StronglySorted desc l ->
  filter same (insert_desc x l) = filter same (x :: l).
Proof.
  intros same. induction 1 as [|y l Hs IH Hy]; auto.
  cbn [insert_desc].
  destruct (key_lt (sort_key x) (sort_key y)) eqn:E; auto.
  cbn [filter] in *. rewrite IH.
  destruct (same x) eqn:Sx, (same y) eqn:Sy; auto.
  exfalso. unfold same in Sx, Sy.
  rewrite andb_true_iff, !negb_true_iff in Sx, Sy.
  destruct (key_lt_cotrans _ k _ E); intuition congruence.
Qed.

Lemma sort_desc_stable (k : string * string) (l : list entry) :
  let same e := negb (key_lt (sort_key e) k) && negb (key_lt k (sort_key e))
  in
  filter same (sort_desc l) = filter same l.
Proof.
  intros same. induction l as [|x l IH]; auto.
  cbn [sort_desc]. unfold same.
  rewrite insert_desc_stable by apply sort_desc_sorted.
  cbn [filter]. fold same. now rewrite IH.
Qed.

Lemma firstn_sorted (n : nat) (l : list entry) :
  StronglySorted desc l -> StronglySorted desc (firstn n l).
Proof.
  intros H. revert n.
  induction H as [|x l Hs IH Hx]; intros [|n]; simpl; try constructor; auto.
  apply Forall_forall. intros y Hy.
  rewrite Forall_forall in Hx. apply Hx.
  rewrite <- (firstn_skipn n l). apply in_or_app. now left.
Qed.

Lemma sorted_app_desc (l1 l2 : list entry) :
  StronglySorted desc (l1 ++ l2) ->
  forall a b, In a l1 -> In b l2 -> desc a b.
Proof.
  induction l1 as [|x l1 IH]; simpl; intros H a b Ha Hb; [tauto |].
  inversion H as [|? ? Hs Hx]; subst.
  destruct Ha as [<- | Ha]; [| now apply IH].
  rewrite Forall_forall in Hx. apply Hx, in_or_app. now right.
Qed.

End Sorting.

(** ** Dictionaries *)

Module DictFacts.
Section DictFacts.
Context {V : Type}.
Implicit Types (d : Dict.t V) (k : string) (v : V).

Lemma get_setitem_same k v d : Dict.get k (Dict.setitem k v d) = Some v.
Proof.
  induction d as [|[k' v'] d IH]; simpl.
  - now rewrite String.eqb_refl.
  - destruct (k =? k') eqn:E; simpl; rewrite E; auto.
Qed.

Lemma get_setitem_other k k' v d :
  k <> k' -> Dict.get k' (Dict.setitem k v d) = Dict.get k' d.
Proof.
  intros N. induction d as [|[k0 v0] d IH]; simpl.
  - apply not_eq_sym, String.eqb_neq in N. now rewrite N.
  - destruct (k =? k0) eqn:E; simpl; [| now rewrite IH].
    apply String.eqb_eq in E. subst k0.
    apply not_eq_sym, String.eqb_neq in N. now rewrite N.
Qed.

Lemma get_none_notin k d : Dict.get k d = None <-> ~ In k (Dict.keys d).
Proof.
  induction d as [|[k' v'] d IH]; simpl; [tauto |].
  destruct (String.eqb_spec k k') as [-> | N].
  - split; [discriminate | tauto].
  - rewrite IH. split; [intros H [E | I]; congruence | tauto].
Qed.

Lemma get_some_in k v d : Dict.get k d = Some v -> In (k, v) d.
Proof.
  induction d as [|[k' v'] d IH]; simpl; [discriminate |].
  destruct (String.eqb_spec k k') as [-> | N]; [| auto].
  intros [= ->]. now left.
Qed.

Lemma in_get_some k v d :
  NoDup (Dict.keys d) -> In (k, v) d -> Dict.get k d = Some v.
Proof.
  induction d as [|[k' v'] d IH]; simpl; [tauto |].
  intros ND [[= -> ->] | I].
  - now rewrite String.eqb_refl.
  - inversion ND as [|? ? NI ND']; subst.
    destruct (String.eqb_spec k k') as [-> | N]; [| auto].
    exfalso. apply NI. change k' with (fst (k', v)). now apply in_map.
Qed.

(** A store to a new key appends. *)
Lemma setitem_new k v d :
  Dict.get k d = None -> Dict.setitem k v d = (d ++ [(k, v)])%list.
Proof.
  induction d as [|[k' v'] d IH]; simpl; auto.
  destruct (k =? k'); [discriminate |]. intros H. now rewrite IH.
Qed.

(** A store to a present key leaves the keys and their order alone. *)
Lemma keys_setitem_present k v d :
  Dict.get k d <> None -> Dict.keys (Dict.setitem k v d) = Dict.keys d.
Proof.
  induction d as [|[k' v'] d IH]; simpl; [congruence |].
  destruct (k =? k'); simpl; auto. intros H. now rewrite IH.
Qed.

Lemma keys_setitem_nodup k v d :
  NoDup (Dict.keys d) -> NoDup (Dict.keys (Dict.setitem k v d)).
Proof.
  intros ND. destruct (Dict.get k d) eqn:E.
  - rewrite keys_setitem_present; congruence.
  - rewrite setitem_new by assumption. unfold Dict.keys.
    rewrite map_app. simpl.
    apply NoDup_app; [assumption | repeat constructor; simpl; tauto |].
    intros a Ha [<- | []]. now apply get_none_notin in E.
Qed.

(** What a store leaves in the dictionary. *)
Lemma in_setitem k v d k' v' :
  In (k', v') (Dict.setitem k v d) -> (k' = k /\ v' = v) \/ In (k', v') d.
Proof.
  induction d as [|[k0 v0] d IH]; simpl.
  - intros [[= <- <-] | []]. auto.
  - destruct (String.eqb_spec k k0) as [-> | N]; simpl.
    + intros [[= <- <-] | I]; auto.
    + intros [E | I]; auto. destruct (IH I); auto.
Qed.

End DictFacts.
End DictFacts.

(** ** The lookup table [by_id] *)

Lemma fold_left_invariant {A B : Type} (P : A -> Prop) (f : A -> B -> A)
      (l : list B) (a : A) :
  (forall a b, P a -> P (f a b)) -> P a -> P (fold_left f l a).
Proof.
  intros Hf. revert a. induction l; simpl; auto.
Qed.

Lemma has_key_iff (k : string) (e : entry) :
  has_key k e = true <-> id_key e = Some k.
Proof.
  unfold has_key. destruct (id_key e) as [k'|]; [| split; discriminate].
  rewrite String.eqb_eq. split; congruence.
Qed.

Lemma id_key_id (e : entry) (k : string) :
  id_key e = Some k -> id e = Some k /\ k <> "".
Proof.
  unfold id_key, PyStr.truthy. destruct (id e) as [s|]; [| discriminate].
  destruct (String.eqb_spec s ""); simpl; [discriminate |].
  intros [= <-]. auto.
Qed.

Lemma kv_id_key (e : entry) (k : string) : id_key e = Some k -> kv e = (k, e).
Proof.
  intros H. apply id_key_id in H as [H _]. unfold kv. now rewrite H.
Qed.

Lemma well_keyed_empty : well_keyed Dict.empty.
Proof. split; [constructor | intros k e []]. Qed.

Lemma well_keyed_setitem (d : Dict.t entry) (k : string) (e : entry) :
  id_key e = Some k -> well_keyed d -> well_keyed (Dict.setitem k e d).
Proof.
  intros He [ND Hk]. split.
  - now apply DictFacts.keys_setitem_nodup.
  - intros k' e' I. apply DictFacts.in_setitem in I as [[-> ->] | I]; auto.
Qed.

Lemma index_step_well_keyed (d : Dict.t entry) (e : entry) :
  well_keyed d -> well_keyed (index_step d e).
Proof.
  unfold index_step. destruct (id_key e) eqn:E; auto.
  now apply well_keyed_setitem.
Qed.

Lemma merge_step_well_keyed (d : Dict.t entry) (e : entry) :
  well_keyed d -> well_keyed (merge_step d e).
Proof.
  unfold merge_step. destruct (id_key e) eqn:E; auto.
  destruct (Dict.get s d); [destruct (PyStr.gt _ _) |]; auto;
    now apply well_keyed_setitem.
Qed.

Lemma uniq_step_well_keyed (d : Dict.t entry) (e : entry) :
  well_keyed d -> well_keyed (uniq_step d e).
Proof.
  unfold uniq_step. destruct (id_key e) eqn:E; auto.
  destruct (Dict.mem s d); auto. now apply well_keyed_setitem.
Qed.

Lemma merged_by_id_well_keyed (old new : list entry) :
  well_keyed (merged_by_id old new).
Proof.
  unfold merged_by_id, index_by_id.
  apply fold_left_invariant; [apply merge_step_well_keyed |].
  apply fold_left_invariant; [apply index_step_well_keyed |].
  apply well_keyed_empty.
Qed.

(** In a well-keyed table the ids of the values are the keys. *)
Lemma well_keyed_id_keys (d : Dict.t entry) :
  well_keyed d -> map id_key (Dict.values d) = map Some (Dict.keys d).
Proof.
  intros [_ Hk]. induction d as [|[k e] d IH]; simpl; auto.
  rewrite IH by (intros; apply Hk; now right).
  rewrite (Hk k e); [reflexivity | now left].
Qed.

Lemma well_keyed_get (d : Dict.t entry) (k : string) (e : entry) :
  well_keyed d -> In e (Dict.values d) -> id_key e = Some k ->
  Dict.get k d = Some e.
Proof.
  intros [ND Hk] I E. apply in_map_iff in I as [[k' e'] [<- I]].
  simpl in E. apply DictFacts.in_get_some; auto.
  rewrite (Hk _ _ I) in E. now injection E as ->.
Qed.

(** *** What each loop leaves under a key *)

Lemma get_index_step (k : string) (d : Dict.t entry) (e : entry) :
  Dict.get k (index_step d e) = if has_key k e then Some e else Dict.get k d.
Proof.
  unfold index_step, has_key. destruct (id_key e) as [k'|]; auto.
  destruct (String.eqb_spec k k') as [-> | N].
  - apply DictFacts.get_setitem_same.
  - apply DictFacts.get_setitem_other. congruence.
Qed.

Lemma get_merge_step (k : string) (d : Dict.t entry) (e : entry) :
  Dict.get k (merge_step d e)
  = if has_key k e then pick (Dict.get k d) e else Dict.get k d.
Proof.
  unfold merge_step, has_key, pick. destruct (id_key e) as [k'|]; auto.
  destruct (String.eqb_spec k k') as [-> | N].
  - destruct (Dict.get k' d) as [cur|] eqn:G.
    + destruct (PyStr.gt _ _); auto. apply DictFacts.get_setitem_same.
    + apply DictFacts.get_setitem_same.
  - destruct (Dict.get k' d) as [cur|] eqn:G.
    + destruct (PyStr.gt _ _); auto.
      apply DictFacts.get_setitem_other. congruence.
    + apply DictFacts.get_setitem_other. congruence.
Qed.

Lemma get_fold_index (k : string) (l : list entry) (d : Dict.t entry) :
  Dict.get k (fold_left index_step l d)
  = fold_left (fun _ e => Some e) (filter (has_key k) l) (Dict.get k d).
Proof.
  revert d. induction l as [|e l IH]; intros d; simpl; auto.
  rewrite IH, get_index_step. now destruct (has_key k e).
Qed.

Lemma get_fold_merge (k : string) (l : list entry) (d : Dict.t entry) :
  Dict.get k (fold_left merge_step l d)
  = fold_left pick (filter (has_key k) l) (Dict.get k d).
Proof.
  revert d. induction l as [|e l IH]; intros d; simpl; auto.
  rewrite IH, get_merge_step. now destruct (has_key k e).
Qed.

Lemma get_index_by_id (k : string) (old : list entry) :
  Dict.get k (index_by_id old) = holder k old.
Proof. unfold index_by_id. now rewrite get_fold_index. Qed.

(** The table after the loop holds, under every key, the winner of the
    conflict rule. *)
Lemma get_merged_by_id (k : string) (old new : list entry) :
  Dict.get k (merged_by_id old new) = winner k old new.
Proof.
  unfold merged_by_id, winner. now rewrite get_fold_merge, get_index_by_id.
Qed.

(** *** Where the stored records come from *)

Lemma in_index_step (k : string) (v e : entry) (d : Dict.t entry) :
  In (k, v) (index_step d e) -> v = e \/ In (k, v) d.
Proof.
  unfold index_step. destruct (id_key e); auto.
  intros I. apply DictFacts.in_setitem in I. tauto.
Qed.

Lemma in_merge_step (k : string) (v e : entry) (d : Dict.t entry) :
  In (k, v) (merge_step d e) -> v = e \/ In (k, v) d.
Proof.
  unfold merge_step. destruct (id_key e); auto.
  destruct (Dict.get s d); [destruct (PyStr.gt _ _) |]; auto;
    intros I; apply DictFacts.in_setitem in I; tauto.
Qed.

Lemma in_fold_step (step : Dict.t entry -> entry -> Dict.t entry) :
  (forall k v e d, In (k, v) (step d e) -> v = e \/ In (k, v) d) ->
  forall l d k v, In (k, v) (fold_left step l d) -> In v l \/ In (k, v) d.
Proof.
  intros Hs. induction l as [|e l IH]; intros d k v; simpl; auto.
  intros I. apply IH in I as [I | I]; auto.
  apply Hs in I as [-> | I]; auto.
Qed.

Lemma merged_by_id_origin (old new : list entry) (x : entry) :
  In x (Dict.values (merged_by_id old new)) -> In x old \/ In x new.
Proof.
  intros I. apply in_map_iff in I as [[k v] [<- I]]. simpl.
  apply (in_fold_step _ in_merge_step) in I as [I | I]; auto.
  apply (in_fold_step _ in_index_step) in I as [I | []]; auto.
Qed.

Lemma merge_incl_merged (old new : list entry) (x : entry) :
  In x (merge_and_dedupe old new) ->
  In x (Dict.values (merged_by_id old new)).
Proof.
  intros I. unfold merge_and_dedupe in I.
  eapply Permutation_in; [apply Permutation_sym, sort_desc_perm |].
  rewrite <- (firstn_skipn KEEP_MAX (sort_desc _)).
  apply in_or_app. now left.
Qed.

(** *** The conflict rule along a batch *)

Section Pick.

Local Abbreviation fa e := (get_or_empty (fetched_at e)).

Lemma fold_pick_some (l : list entry) (c : entry) :
  exists c', fold_left pick l (Some c) = Some c'
             /\ PyStr.lt (fa c') (fa c) = false.
Proof.
  revert c. induction l as [|a l IH]; intros c; simpl.
  - exists c. split; auto. apply str_lt_irrefl.
  - destruct (PyStr.gt (fa a) (fa c)) eqn:G.
    + destruct (IH a) as [c' [E L]]. exists c'. split; auto.
      eapply str_ge_trans; [exact L |]. now apply str_lt_asym.
    + apply IH.
Qed.

(** Records that are not strictly newer never take the place. *)
Lemma fold_pick_keeps (l : list entry) (cur : entry) :
  (forall e, In e l -> PyStr.gt (fa e) (fa cur) = false) ->
  fold_left pick l (Some cur) = Some cur.
Proof.
  induction l as [|a l IH]; simpl; auto. intros H.
  rewrite (H a) by now left. apply IH. intros e I. apply H. now right.
Qed.

(** Whoever took the place is a strictly newer record of the batch. *)
Lemma fold_pick_origin (l : list entry) (cur x : entry) :
  fold_left pick l (Some cur) = Some x ->
  x = cur \/ (In x l /\ PyStr.gt (fa x) (fa cur) = true).
Proof.
  revert cur. induction l as [|a l IH]; intros cur; simpl.
  - intros [= ->]. now left.
  - destruct (PyStr.gt (fa a) (fa cur)) eqn:G; intros E.
    + right. apply IH in E as [-> | [I L]]; auto.
      split; auto. unfold PyStr.gt in *. eapply str_lt_trans; eauto.
    + apply IH in E as [-> | [I L]]; auto.
Qed.

(** The final holder is at least as new as every record of the batch. *)
Lemma fold_pick_newest (l : list entry) (init : option entry) (e : entry) :
  In e l ->
  exists cur, fold_left pick l init = Some cur
              /\ PyStr.gt (fa e) (fa cur) = false.
Proof.
  revert init. induction l as [|a l IH]; intros init; simpl; [tauto |].
  intros [-> | I]; [| now apply IH].
  assert (exists c, pick init e = Some c /\ PyStr.lt (fa c) (fa e) = false)
    as [c [-> Hc]].
  { unfold pick. destruct init as [c|].
    - destruct (PyStr.gt (fa e) (fa c)) eqn:G; eexists; split; eauto.
      apply str_lt_irrefl.
    - eexists; split; eauto. apply str_lt_irrefl. }
  destruct (fold_pick_some l c) as [c' [E L]]. exists c'. split; auto.
  unfold PyStr.gt. eapply str_ge_trans; eauto.
Qed.

End Pick.

(** ** The merged collection *)

Section Merge.

Local Abbreviation fa e := (get_or_empty (fetched_at e)).

Lemma merge_and_dedupe_sorted (old new : list entry) :
  StronglySorted desc (merge_and_dedupe old new).
Proof. apply firstn_sorted, sort_desc_sorted. Qed.

Lemma desc_sorted_in_words (l : list entry) :
  StronglySorted desc l -> StronglySorted date_then_fetched_desc l.
Proof.
  induction 1 as [|x l Hs IH Hx]; constructor; auto.
  eapply Forall_impl; [| exact Hx]. intros y. apply desc_in_words.
Qed.

Lemma merge_and_dedupe_length (old new : list entry) :
  List.length (merge_and_dedupe old new) <= KEEP_MAX.
Proof. apply firstn_le_length. Qed.

Lemma merge_and_dedupe_uncut (old new : list entry) :
  List.length (Dict.values (merged_by_id old new)) <= KEEP_MAX ->
  merge_and_dedupe old new = sort_desc (Dict.values (merged_by_id old new)).
Proof.
  intros H. apply firstn_all2.
  now rewrite <- (Permutation_length (sort_desc_perm _)).
Qed.

Lemma merge_and_dedupe_get (old new : list entry) (x : entry) (k : string) :
  In x (merge_and_dedupe old new) -> id_key x = Some k ->
  Dict.get k (merged_by_id old new) = Some x.
Proof.
  intros I E. apply well_keyed_get; auto using merged_by_id_well_keyed.
  now apply merge_incl_merged.
Qed.

Lemma merge_and_dedupe_id_keys (old new : list entry) :
  NoDup (map id_key (merge_and_dedupe old new)).
Proof.
  pose proof (merged_by_id_well_keyed old new) as W.
  assert (NoDup (map id_key (sort_desc (Dict.values (merged_by_id old new)))))
    as ND.
  { eapply Permutation_NoDup; [apply Permutation_map, sort_desc_perm |].
    rewrite well_keyed_id_keys by assumption.
    apply Finite.Injective_map_NoDup; [congruence | apply W]. }
  unfold merge_and_dedupe.
  rewrite <- (firstn_skipn KEEP_MAX (sort_desc _)), map_app in ND.
  now apply NoDup_app_remove_r in ND.
Qed.

Lemma merge_and_dedupe_keyed (old new : list entry) (x : entry) :
  In x (merge_and_dedupe old new) -> exists k, id_key x = Some k.
Proof.
  intros I. apply merge_incl_merged, in_map_iff in I as [[k v] [<- I]].
  exists k. now apply (merged_by_id_well_keyed old new).
Qed.

End Merge.

(** C3. In a merge where an incoming record shares its id with the record
    the existing collection holds under that id, the existing record stays,
    unchanged, unless an incoming record's [fetched_at] is strictly greater
    as a string: when every incoming record of that id is older or equal,
    the lookup table still holds the existing record, no other record of
    that id is in the result, and the existing record is in the result
    unless the cap cut the collection; and whatever record ends up under
    the id is the existing one or a strictly newer incoming one. *)
Theorem existing_record_wins (old new : list entry) (k : string)
        (cur : entry) :
  Dict.get k (index_by_id old) = Some cur ->
  ((forall e, In e new -> id_key e = Some k ->
              PyStr.gt (get_or_empty (fetched_at e))
                       (get_or_empty (fetched_at cur)) = false) ->
   Dict.get k (merged_by_id old new) = Some cur
   /\ Forall (fun x => id_key x = Some k -> x = cur)
             (merge_and_dedupe old new)
   /\ (List.length (Dict.values (merged_by_id old new)) <= KEEP_MAX ->
       In cur (merge_and_dedupe old new)))
  /\ (forall x, Dict.get k (merged_by_id old new) = Some x ->
                x = cur
                \/ (In x new /\ id_key x = Some k
                    /\ PyStr.gt (get_or_empty (fetched_at x))
                                (get_or_empty (fetched_at cur)) = true)).
Proof.
  intros G.
  assert (Dict.get k (merged_by_id old new)
          = fold_left pick (filter (has_key k) new) (Some cur)) as W.
  { rewrite get_merged_by_id. unfold winner.
    now rewrite <- get_index_by_id, G. }
  split.
  - intros Hold.
    assert (Dict.get k (merged_by_id old new) = Some cur) as K.
    { rewrite W. apply fold_pick_keeps. intros e I.
      apply filter_In in I as [I E]. apply Hold; auto.
      now apply has_key_iff. }
    split; [exact K | split].
    + apply Forall_forall. intros x I E.
      rewrite (merge_and_dedupe_get _ _ _ _ I E) in K. congruence.
    + intros L. rewrite merge_and_dedupe_uncut by assumption.
      eapply Permutation_in; [apply sort_desc_perm |].
      apply DictFacts.get_some_in in K.
      change cur with (snd (k, cur)). now apply in_map.
  - intros x E. rewrite W in E.
    apply fold_pick_origin in E as [-> | [I L]]; auto.
    apply filter_In in I as [I E]. right. repeat split; auto.
    now apply has_key_iff.
Qed.

Lemma existing_record_wins_witness :
  Dict.get "2510.00001v1" (merged_by_id [stored] [refetched_older; other_paper])
  = Some stored
  /\ In stored (merge_and_dedupe [stored] [refetched_older; other_paper]).
Proof.
  pose proof (existing_record_wins
                [stored] [refetched_older; other_paper] "2510.00001v1" stored
                eq_refl) as [H _].
  assert (forall e, In e [refetched_older; other_paper] ->
                    id_key e = Some "2510.00001v1" ->
                    PyStr.gt (get_or_empty (fetched_at e))
                             (get_or_empty (fetched_at stored)) = false)
    as Older.
  { intros e [<- | [<- | []]] E; [reflexivity | discriminate E]. }
  destruct (H Older) as [K [_ I]].
  split; [exact K | apply I; vm_compute; lia].
Defined.

(** C4. The merged collection never has more than [KEEP_MAX] = 600
    records; the merged set is the result together with what the cap
    dropped, and no dropped record has a key above the key of a record
    that was kept. *)
Theorem cap_drops_smallest_keys (old new : list entry) :
  KEEP_MAX = 600
  /\ List.length (merge_and_dedupe old new) <= KEEP_MAX
  /\ Permutation (Dict.values (merged_by_id old new))
                 (merge_and_dedupe old new ++ dropped_by_cap old new)
  /\ Forall (fun gone =>
               Forall (fun kept =>
                         key_lt (sort_key kept) (sort_key gone) = false)
                      (merge_and_dedupe old new))
            (dropped_by_cap old new).
Proof.
  split; [reflexivity |]. split; [apply merge_and_dedupe_length |].
  unfold merge_and_dedupe, dropped_by_cap.
  set (all := sort_desc (Dict.values (merged_by_id old new))).
  split.
  - rewrite firstn_skipn. apply sort_desc_perm.
  - apply Forall_forall. intros gone Hg. apply Forall_forall. intros kept Hk.
    apply (sorted_app_desc (firstn KEEP_MAX all) (skipn KEEP_MAX all));
      auto.
    rewrite firstn_skipn. apply sort_desc_sorted.
Qed.

(** C5. The merged collection is sorted in descending order of the pair
    ([date], [fetched_at]) compared as strings: of two records, the
    earlier has the greater [date], or the same [date] and a [fetched_at]
    that is not smaller. *)
Theorem merge_sorted_desc (old new : list entry) :
  StronglySorted date_then_fetched_desc (merge_and_dedupe old new).
Proof.
  apply desc_sorted_in_words. unfold merge_and_dedupe.
  apply firstn_sorted, sort_desc_sorted.
Qed.

(** C10. The merge builds no record and changes none: every record of the
    result is a record of the existing collection or of the batch. *)
Theorem merge_creates_nothing (old new : list entry) :
  Forall (fun x => In x old \/ In x new) (merge_and_dedupe old new).
Proof.
  apply Forall_forall. intros x I.
  now apply merged_by_id_origin, merge_incl_merged.
Qed.

(** C6, the claim as stated fails: the record merged last does not win an
    id conflict when its [fetched_at] is not strictly greater. *)
Lemma last_merged_need_not_win :
  id refetched_older = id stored
  /\ merge_and_dedupe [stored] [refetched_older] = [stored]
  /\ refetched_older <> stored.
Proof.
  split; [reflexivity |]. split; [vm_compute; reflexivity | discriminate].
Qed.

(** C6, as the code has it. No two records of the merged collection share
    an [id], and each record of the result is the winner of its id: the
    last record of that id in the existing collection, replaced along the
    batch only by a record whose [fetched_at] is strictly greater than
    that of the record then held. *)
Theorem ids_unique_newer_wins (old new : list entry) :
  NoDup (map id (merge_and_dedupe old new))
  /\ Forall (fun x => exists k, id x = Some k /\ winner k old new = Some x)
            (merge_and_dedupe old new).
Proof.
  split.
  - pose proof (merge_and_dedupe_id_keys old new) as ND.
    unfold id_key in ND.
    rewrite <- (map_map id (fun o => match o with
                                     | Some s =>
                                         if PyStr.truthy s then Some s
                                         else None
                                     | None => None
                                     end)) in ND.
    now apply NoDup_map_inv in ND.
  - apply Forall_forall. intros x I.
    destruct (merge_and_dedupe_keyed _ _ _ I) as [k E]. exists k.
    split; [now apply id_key_id |].
    rewrite <- get_merged_by_id. now apply merge_and_dedupe_get.
Qed.

(** ** Batches without repeated ids *)

Lemma values_map_kv (l : list entry) : Dict.values (map kv l) = l.
Proof.
  unfold Dict.values. rewrite map_map. simpl. apply map_id.
Qed.

Lemma keys_map_kv (l : list entry) :
  Forall (fun e => id_key e <> None) l ->
  map Some (Dict.keys (map kv l)) = map id_key l.
Proof.
  induction 1 as [|e l He Hl IH]; simpl; auto.
  rewrite IH. destruct (id_key e) as [k|] eqn:E; [| congruence].
  apply id_key_id in E as [-> _]. reflexivity.
Qed.

Lemma distinct_ids_tail (e : entry) (l : list entry) :
  distinct_ids (e :: l) -> distinct_ids l.
Proof.
  intros [ND F]. inversion ND; inversion F; subst. now split.
Qed.

(** A loop that stores every record with a fresh id appends the batch. *)
Lemma fold_step_appends (step : Dict.t entry -> entry -> Dict.t entry) :
  (forall d e k, id_key e = Some k -> Dict.get k d = None ->
                 step d e = Dict.setitem k e d) ->
  forall l d,
    distinct_ids l ->
    (forall e k, In e l -> id_key e = Some k -> Dict.get k d = None) ->
    fold_left step l d = (d ++ map kv l)%list.
Proof.
  intros Hs. induction l as [|e l IH]; intros d D Fresh; simpl.
  - now rewrite app_nil_r.
  - destruct D as [ND F]. inversion ND as [|? ? NI ND']; subst.
    inversion F as [|? ? He F']; subst.
    destruct (id_key e) as [k|] eqn:E; [| congruence].
    assert (Dict.get k d = None) as G by (apply (Fresh e); auto; now left).
    rewrite (Hs d e k E G), (DictFacts.setitem_new _ _ _ G).
    rewrite IH; [| now split |].
    + rewrite <- app_assoc. simpl. now rewrite (kv_id_key e k E).
    + intros e' k' I E'.
      apply DictFacts.get_none_notin. unfold Dict.keys.
      rewrite map_app, in_app_iff. simpl. intros [I' | [<- | []]].
      * apply (DictFacts.get_none_notin k' d); auto.
        apply (Fresh e'); auto. now right.
      * apply NI. rewrite <- E'. now apply in_map.
Qed.

Lemma merge_step_fresh (d : Dict.t entry) (e : entry) (k : string) :
  id_key e = Some k -> Dict.get k d = None ->
  merge_step d e = Dict.setitem k e d.
Proof. unfold merge_step. now intros -> ->. Qed.

Lemma index_step_fresh (d : Dict.t entry) (e : entry) (k : string) :
  id_key e = Some k -> Dict.get k d = None ->
  index_step d e = Dict.setitem k e d.
Proof. unfold index_step. now intros ->. Qed.

Lemma index_by_id_distinct (l : list entry) :
  distinct_ids l -> index_by_id l = map kv l.
Proof.
  intros D. unfold index_by_id.
  now rewrite (fold_step_appends _ index_step_fresh).
Qed.

Lemma merged_by_id_empty (l : list entry) :
  distinct_ids l -> merged_by_id [] l = map kv l.
Proof.
  intros D. unfold merged_by_id, index_by_id. simpl.
  now rewrite (fold_step_appends _ merge_step_fresh).
Qed.

Lemma distinct_ids_filter (keep : entry -> bool) (l : list entry) :
  distinct_ids l -> distinct_ids (filter keep l).
Proof.
  induction l as [|e l IH]; simpl; auto. intros D.
  pose proof (IH (distinct_ids_tail _ _ D)) as [ND' F'].
  destruct (keep e); [| now split].
  destruct D as [ND F]. inversion ND as [|? ? NI _]; subst.
  inversion F; subst. split; simpl; constructor; auto.
  intros I. apply NI. apply in_map_iff in I as [x [E I]].
  apply filter_In in I as [I _]. rewrite <- E. now apply in_map.
Qed.

Lemma well_keyed_values_distinct (d : Dict.t entry) :
  well_keyed d -> distinct_ids (Dict.values d).
Proof.
  intros W. split.
  - rewrite well_keyed_id_keys by assumption.
    apply Finite.Injective_map_NoDup; [congruence | apply W].
  - apply Forall_forall. intros e I.
    apply in_map_iff in I as [[k v] [<- I]]. simpl.
    destruct W as [_ Hk]. rewrite (Hk _ _ I). discriminate.
Qed.

Lemma new_list_distinct (all_new : list entry) :
  distinct_ids (new_list all_new).
Proof.
  apply well_keyed_values_distinct. unfold new_list.
  apply fold_left_invariant; [apply uniq_step_well_keyed |].
  apply well_keyed_empty.
Qed.

Lemma merge_and_dedupe_distinct (old new : list entry) :
  distinct_ids (merge_and_dedupe old new).
Proof.
  split; [apply merge_and_dedupe_id_keys |].
  apply Forall_forall. intros e I.
  destruct (merge_and_dedupe_keyed _ _ _ I) as [k ->]. discriminate.
Qed.

(** *** First-seen deduplication *)

Lemma get_uniq_step (k : string) (d : Dict.t entry) (e : entry) :
  Dict.get k (uniq_step d e)
  = match Dict.get k d with
    | Some v => Some v
    | None => if has_key k e then Some e else None
    end.
Proof.
  unfold uniq_step, has_key, Dict.mem. destruct (id_key e) as [k'|].
  - destruct (String.eqb_spec k k') as [-> | N].
    + destruct (Dict.get k' d) eqn:G; [now rewrite G |].
      apply DictFacts.get_setitem_same.
    + destruct (Dict.get k' d) eqn:G; [now destruct (Dict.get k d) |].
      rewrite DictFacts.get_setitem_other by congruence.
      now destruct (Dict.get k d).
  - now destruct (Dict.get k d).
Qed.

Lemma get_fold_uniq (k : string) (l : list entry) (d : Dict.t entry) :
  Dict.get k (fold_left uniq_step l d)
  = match Dict.get k d with
    | Some v => Some v
    | None => find (has_key k) l
    end.
Proof.
  revert d. induction l as [|e l IH]; intros d; simpl.
  - now destruct (Dict.get k d).
  - rewrite IH, get_uniq_step.
    destruct (Dict.get k d); auto. now destruct (has_key k e).
Qed.

Lemma new_list_first_seen (all_new : list entry) (x : entry) (k : string) :
  In x (new_list all_new) -> id_key x = Some k ->
  find (has_key k) all_new = Some x.
Proof.
  intros I E. unfold new_list in I.
  apply well_keyed_get with (k := k) in I; auto.
  - now rewrite get_fold_uniq in I.
  - apply fold_left_invariant; [apply uniq_step_well_keyed |].
    apply well_keyed_empty.
Qed.

(** C7. Merging into an empty store the batch that [main] passes on (the
    run's records deduplicated by id, first occurrence kept, then filtered)
    gives exactly that batch, sorted in descending order of ([date],
    [fetched_at]) and cut at the cap: below the cap no record is added,
    removed or changed. *)
Theorem merge_into_empty_store (keep : entry -> bool)
        (all_new : list entry) :
  let deduped := new_list all_new in
  let batch := filter keep deduped in
  Forall (fun x => exists k, id_key x = Some k
                             /\ find (has_key k) all_new = Some x) deduped
  /\ merge_and_dedupe [] batch = firstn KEEP_MAX (sort_desc batch)
  /\ StronglySorted date_then_fetched_desc (merge_and_dedupe [] batch)
  /\ (List.length batch <= KEEP_MAX ->
      merge_and_dedupe [] batch = sort_desc batch
      /\ Permutation batch (merge_and_dedupe [] batch)).
Proof.
  intros deduped batch.
  assert (distinct_ids batch) as D
      by apply distinct_ids_filter, new_list_distinct.
  assert (merge_and_dedupe [] batch = firstn KEEP_MAX (sort_desc batch))
    as E.
  { unfold merge_and_dedupe.
    now rewrite merged_by_id_empty, values_map_kv. }
  split; [| split; [exact E | split]].
  2: apply desc_sorted_in_words, merge_and_dedupe_sorted.
  - apply Forall_forall. intros x I.
    pose proof (new_list_distinct all_new) as [_ F].
    rewrite Forall_forall in F. specialize (F x I).
    destruct (id_key x) as [k|] eqn:K; [| congruence].
    exists k. split; auto. now apply new_list_first_seen.
  - intros L. rewrite E.
    rewrite firstn_all2
      by now rewrite <- (Permutation_length (sort_desc_perm _)).
    split; [reflexivity | apply sort_desc_perm].
Qed.

Lemma merge_into_empty_store_witness :
  merge_and_dedupe
    [] (filter (fun _ => true)
               (new_list [stored; refetched_newer; other_paper]))
  = [other_paper; stored].
Proof.
  destruct (merge_into_empty_store
              (fun _ => true) [stored; refetched_newer; other_paper])
    as [_ [_ [_ H]]].
  destruct H as [E _]; [vm_compute; lia |].
  rewrite E. reflexivity.
Defined.

(** On its own [merge_and_dedupe] settles a repeated id inside a batch by
    [fetched_at], not by position; the first-seen rule is [main]'s. *)
Example merge_alone_prefers_newer :
  merge_and_dedupe [] [stored; refetched_newer; other_paper]
  = [other_paper; refetched_newer].
Proof. reflexivity. Qed.

(** ** Merging the same batch again *)

Lemma fold_left_fixed {A B : Type} (f : A -> B -> A) (l : list B) (a : A) :
  (forall b, In b l -> f a b = a) -> fold_left f l a = a.
Proof.
  induction l as [|b l IH]; simpl; auto. intros H.
  rewrite (H b) by now left. apply IH. intros; apply H; now right.
Qed.

Lemma get_map_kv (l : list entry) (x : entry) (k : string) :
  distinct_ids l -> In x l -> id_key x = Some k ->
  Dict.get k (map kv l) = Some x.
Proof.
  intros [ND F] I E. apply DictFacts.in_get_some.
  - apply (NoDup_map_inv Some). now rewrite keys_map_kv.
  - rewrite <- (kv_id_key x k E). now apply in_map.
Qed.

(** After a merge, the record held under an id of the batch is at least as
    new as every record of the batch with that id. *)
Lemma merged_by_id_newest (old new : list entry) (e : entry) (k : string) :
  In e new -> id_key e = Some k ->
  exists cur, Dict.get k (merged_by_id old new) = Some cur
              /\ PyStr.gt (get_or_empty (fetched_at e))
                          (get_or_empty (fetched_at cur)) = false.
Proof.
  intros I E. rewrite get_merged_by_id. apply fold_pick_newest.
  apply filter_In. split; auto. now apply has_key_iff.
Qed.

(** When the cap cut nothing, every id of the batch is in the result. *)
Lemma uncut_keeps_batch_ids (old new : list entry) :
  List.length (Dict.values (merged_by_id old new)) <= KEEP_MAX ->
  forall e k, In e new -> id_key e = Some k ->
              exists x, In x (merge_and_dedupe old new) /\ id_key x = Some k.
Proof.
  intros L e k I E.
  destruct (merged_by_id_newest old new e k I E) as [cur [G _]].
  exists cur. rewrite merge_and_dedupe_uncut by assumption. split.
  - eapply Permutation_in; [apply sort_desc_perm |].
    apply DictFacts.get_some_in in G.
    change cur with (snd (k, cur)). now apply in_map.
  - apply DictFacts.get_some_in in G.
    now apply (merged_by_id_well_keyed old new).
Qed.

(** C2, the claim as stated fails. A store at the cap holds [stale] last;
    the batch brings the same id with an older [fetched_at] and a recent
    [date]. The first merge keeps [stale] and the cap drops it; the second
    merge then finds the id free and takes [fresh]. *)
Lemma remerge_differs_after_cut :
  merge_and_dedupe full_store [] = full_store
  /\ nth_error (merge_and_dedupe full_store batch) 1 = Some (filler 0)
  /\ nth_error (merge_and_dedupe (merge_and_dedupe full_store batch) batch) 1
     = Some fresh
  /\ merge_and_dedupe (merge_and_dedupe full_store batch) batch
     <> merge_and_dedupe full_store batch.
Proof.
  assert (nth_error (merge_and_dedupe full_store batch) 1 = Some (filler 0))
    as E1 by (vm_compute; reflexivity).
  assert (nth_error
            (merge_and_dedupe (merge_and_dedupe full_store batch) batch) 1
          = Some fresh) as E2 by (vm_compute; reflexivity).
  split; [vm_compute; reflexivity |].
  split; [exact E1 |]. split; [exact E2 |].
  intros E. rewrite E, E1 in E2. discriminate E2.
Qed.

(** C2, as the code has it. Merging the same batch again changes nothing
    whenever the first merge left every id of the batch in its result (in
    particular whenever the cap cut nothing). *)
Theorem remerge_same_batch (old new : list entry) :
  (forall e k, In e new -> id_key e = Some k ->
               exists x, In x (merge_and_dedupe old new)
                         /\ id_key x = Some k) ->
  merge_and_dedupe (merge_and_dedupe old new) new = merge_and_dedupe old new.
Proof.
  intros Kept. set (m := merge_and_dedupe old new).
  pose proof (merge_and_dedupe_distinct old new) as D. fold m in D.
  assert (merged_by_id m new = map kv m) as Same.
  { unfold merged_by_id. rewrite index_by_id_distinct by assumption.
    apply fold_left_fixed. intros e I. unfold merge_step.
    destruct (id_key e) as [k|] eqn:E; auto.
    destruct (Kept e k I E) as [x [Ix Ex]].
    rewrite (get_map_kv m x k D Ix Ex).
    destruct (merged_by_id_newest old new e k I E) as [cur [G Ge]].
    rewrite (merge_and_dedupe_get old new x k Ix Ex) in G.
    injection G as <-. now rewrite Ge. }
  unfold merge_and_dedupe at 1. rewrite Same, values_map_kv.
  rewrite sort_desc_fixed by apply merge_and_dedupe_sorted.
  apply firstn_all2, merge_and_dedupe_length.
Qed.

Lemma remerge_same_batch_witness :
  merge_and_dedupe
    (merge_and_dedupe [stored] [refetched_older; other_paper])
    [refetched_older; other_paper]
  = merge_and_dedupe [stored] [refetched_older; other_paper].
Proof.
  apply (remerge_same_batch [stored] [refetched_older; other_paper]).
  apply uncut_keeps_batch_ids. vm_compute. lia.
Defined.

(** ** The date filter *)

Lemma pydate_eqb_refl (d : pydate) : pydate_eqb d d = true.
Proof. unfold pydate_eqb. now rewrite !Nat.eqb_refl. Qed.

Lemma pydate_eqb_eq (a b : pydate) : pydate_eqb a b = true <-> a = b.
Proof.
  destruct a as [y m d], b as [y' m' d']. unfold pydate_eqb. simpl.
  rewrite !andb_true_iff, !Nat.eqb_eq. split.
  - intros [[-> ->] ->]. reflexivity.
  - intros [= -> -> ->]. auto.
Qed.

Lemma truthy_empty (s : string) : PyStr.truthy s = false <-> s = "".
Proof.
  unfold PyStr.truthy. rewrite negb_false_iff. apply String.eqb_eq.
Qed.

(** C1, the claim as stated fails. In the specification's own example the
    record with the empty [date] is left out, although the date parsed from
    its [fetched_at] is the target day. *)
Lemma empty_date_is_not_recovered :
  date undated = Some ""
  /\ Iso.fromisoformat_date
       (PyStr.replace "Z" "+00:00" (get_or_empty (fetched_at undated)))
     = Some day_26
  /\ new_list_filtered Iso.fromisoformat_date day_26
                       [dated_27; dated_26; undated]
     = [dated_26].
Proof.
  split; [reflexivity |]. split; [vm_compute; reflexivity |].
  vm_compute; reflexivity.
Qed.

(** C1, as the code has it. A record whose [date] is empty (or missing) is
    left out without a look at [fetched_at]. The date of [fetched_at] is
    tried only for a [date] that is not empty and does not parse: then the
    record is kept when the date parsed from [fetched_at] is the target
    day. A record whose [date] parses is kept exactly when that date is
    the target day. *)
Theorem date_filter_fallback (parse : string -> option pydate)
        (yesterday : pydate) (l : list entry) (e : entry) :
  (get_or_empty (date e) = "" ->
   ~ In e (new_list_filtered parse yesterday l))
  /\ (In e l ->
      get_or_empty (date e) <> "" ->
      parse (get_or_empty (date e)) = None ->
      parse (PyStr.replace "Z" "+00:00" (get_or_empty (fetched_at e)))
      = Some yesterday ->
      In e (new_list_filtered parse yesterday l))
  /\ (forall d, get_or_empty (date e) <> "" ->
                parse (get_or_empty (date e)) = Some d ->
                (In e (new_list_filtered parse yesterday l)
                 <-> In e l /\ d = yesterday)).
Proof.
  unfold new_list_filtered. split; [| split].
  - intros E I. apply filter_In in I as [_ K].
    unfold from_yesterday in K. rewrite E in K. discriminate K.
  - intros I N P F. apply filter_In. split; auto.
    unfold from_yesterday.
    destruct (PyStr.truthy (get_or_empty (date e))) eqn:T.
    + simpl. rewrite P, F. apply pydate_eqb_refl.
    + apply truthy_empty in T. contradiction.
  - intros d N P. rewrite filter_In. unfold from_yesterday.
    destruct (PyStr.truthy (get_or_empty (date e))) eqn:T.
    + simpl. rewrite P, pydate_eqb_eq. reflexivity.
    + apply truthy_empty in T. contradiction.
Qed.

Lemma date_filter_fallback_witness :
  ~ In undated
       (new_list_filtered Iso.fromisoformat_date day_26
                          [dated_27; undated; oddly_dated])
  /\ In oddly_dated
        (new_list_filtered Iso.fromisoformat_date day_26
                           [dated_27; undated; oddly_dated]).
Proof.
  split.
  - apply (proj1 (date_filter_fallback Iso.fromisoformat_date day_26
                    [dated_27; undated; oddly_dated] undated)).
    reflexivity.
  - apply (proj1 (proj2 (date_filter_fallback Iso.fromisoformat_date day_26
                             [dated_27; undated; oddly_dated] oddly_dated))).
    + simpl. auto.
    + discriminate.
    + reflexivity.
    + reflexivity.
Defined.

(** ** Tag extraction *)

Lemma tags_step_emit (tags : list string) (c : string) :
  tags_step tags c
  = (tags ++ (if PyStr.truthy c then emit c else []))%list.
Proof.
  unfold tags_step, emit, suffix. destruct (PyStr.truthy c).
  - now destruct (PyStr.contains "." c).
  - now rewrite app_nil_r.
Qed.

Lemma raw_tags_from (cats acc : list string) :
  fold_left tags_step cats acc
  = (acc ++ flat_map emit (filter PyStr.truthy cats))%list.
Proof.
  revert acc. induction cats as [|c cats IH]; intros acc; simpl.
  - now rewrite app_nil_r.
  - rewrite IH, tags_step_emit. destruct (PyStr.truthy c); simpl.
    + now rewrite <- app_assoc.
    + now rewrite app_nil_r.
Qed.

Lemma filter_narrower {A : Type} (f g : A -> bool) (l : list A) :
  (forall y, f y = true -> g y = true) ->
  filter f (filter g l) = filter f l.
Proof.
  intros H. induction l as [|y l IH]; simpl; auto.
  destruct (g y) eqn:G; simpl; rewrite IH; auto.
  destruct (f y) eqn:F; auto. rewrite (H y F) in G. discriminate.
Qed.

Lemma filter_both {A : Type} (f g : A -> bool) (l : list A) :
  filter (fun y => g y && f y) l = filter f (filter g l).
Proof.
  induction l as [|y l IH]; simpl; auto.
  destruct (g y); simpl; rewrite IH; auto.
Qed.

(** The loop with its [seen] set computes the first occurrences. *)
Lemma tags_clean_from (l seen out : list string) :
  snd (fold_left clean_step l (seen, out))
  = (out ++ filter (fun y => negb (existsb (String.eqb y) seen))
                   (first_seen (filter PyStr.truthy (map PyStr.strip l))))%list.
Proof.
  revert seen out. induction l as [|t l IH]; intros seen out; simpl.
  - now rewrite app_nil_r.
  - unfold clean_step at 2. simpl.
    destruct (PyStr.truthy (PyStr.strip t)) eqn:T; simpl; [| apply IH].
    destruct (existsb (String.eqb (PyStr.strip t)) seen) eqn:S; simpl.
    + rewrite IH. f_equal. symmetry. apply filter_narrower.
      intros y Hy. apply negb_true_iff. apply negb_true_iff in Hy.
      destruct (String.eqb_spec y (PyStr.strip t)); congruence.
    + rewrite IH, <- app_assoc. simpl. do 2 f_equal.
      rewrite <- filter_both. apply filter_ext. intros y.
      now rewrite negb_orb.
Qed.

Lemma first_seen_nodup (l : list string) : NoDup (first_seen l).
Proof.
  induction l as [|x l IH]; simpl; constructor.
  - intros I. apply filter_In in I as [_ N].
    now rewrite String.eqb_refl in N.
  - now apply NoDup_filter.
Qed.

(** [c.split('.')[-1]] is what follows the last dot of [c]. *)
Lemma split_last_dot (s : string) :
  (PyStr.contains "." s = false -> PyStr.split "." s = [s])
  /\ (PyStr.contains "." s = true ->
      tl (PyStr.split "." s) <> []
      /\ PyStr.contains "." (suffix s) = false
      /\ exists p, s = p ++ String "." (suffix s)).
Proof.
  unfold suffix. induction s as [|a s [IH0 IH1]]; simpl.
  - split; [reflexivity | discriminate].
  - destruct (Ascii.eqb_spec a ".") as [-> | N]; simpl.
    + split; [discriminate |]. intros _.
      destruct (PyStr.contains "." s) eqn:C.
      * destruct (IH1 eq_refl) as [T [L [p E]]].
        destruct (PyStr.split "." s) as [|h t]; [now elim T |].
        split; [discriminate |]. split; [exact L |].
        exists (String "." p). simpl. f_equal. exact E.
      * rewrite (IH0 eq_refl). simpl.
        split; [discriminate |]. split; [exact C |]. now exists "".
    + split.
      * intros C. now rewrite (IH0 C).
      * intros C. destruct (IH1 C) as [T [L [p E]]].
        destruct (PyStr.split "." s) as [|h [|h' t]]; simpl in T;
          [now elim T | now elim T |].
        split; [exact T |]. split; [exact L |].
        exists (String a p). simpl. f_equal. exact E.
Qed.

(** C8, the claim as stated fails: the suffix after a closing dot is
    empty and the code drops it, and a code is stripped before it is
    kept. *)
Lemma tags_drop_empty_suffix :
  entry_tags ["cs."] = ["cs."]
  /\ tags_as_claimed ["cs."] = ["cs."; ""]
  /\ entry_tags [" cs.CL"] = ["cs.CL"; "CL"]
  /\ tags_as_claimed [" cs.CL"] = [" cs.CL"; "CL"].
Proof.
  split; [reflexivity |]. split; [reflexivity |].
  split; reflexivity.
Qed.

(** C8, as the code has it. The tags are, for each non-empty category code
    in order, the code and, when it has a dot, what follows its last dot;
    each stripped of surrounding whitespace, the empty ones dropped, and
    the rest deduplicated in first-seen order. For codes whose
    contributions are non-empty and have no surrounding whitespace this is
    the extraction as claimed; [["cs.CL"; "cs.AI"]] gives
    [["cs.CL"; "CL"; "cs.AI"; "AI"]]. *)
Theorem entry_tags_spec (cats : list string) :
  entry_tags cats = tags_stripped cats
  /\ NoDup (entry_tags cats)
  /\ Forall (fun c => PyStr.contains "." c = true ->
                      PyStr.contains "." (suffix c) = false
                      /\ exists p, c = p ++ String "." (suffix c)) cats
  /\ (Forall (fun t => PyStr.strip t = t /\ t <> "") (flat_map emit cats) ->
      entry_tags cats = tags_as_claimed cats)
  /\ entry_tags ["cs.CL"; "cs.AI"] = ["cs.CL"; "CL"; "cs.AI"; "AI"].
Proof.
  assert (entry_tags cats = tags_stripped cats) as E.
  { unfold entry_tags, tags_clean, raw_tags, tags_stripped.
    rewrite tags_clean_from, raw_tags_from. simpl.
    apply forallb_filter_id, forallb_forall. reflexivity. }
  split; [exact E |]. split; [| split; [| split; [| reflexivity]]].
  - rewrite E. apply first_seen_nodup.
  - apply Forall_forall. intros c _ C.
    now destruct (proj2 (split_last_dot c) C) as [_ H].
  - intros Clean. rewrite E. unfold tags_stripped, tags_as_claimed.
    assert (filter PyStr.truthy cats = cats) as ->.
    { apply forallb_filter_id, forallb_forall. intros c I.
      rewrite Forall_forall in Clean.
      destruct (Clean c) as [_ N].
      - apply in_flat_map. exists c. split; auto.
        unfold emit. destruct (PyStr.contains "." c); now left.
      - unfold PyStr.truthy. now apply negb_true_iff, String.eqb_neq. }
    f_equal. induction Clean as [|t l [S N] _ IH]; simpl; auto.
    rewrite S. unfold PyStr.truthy at 1.
    apply String.eqb_neq in N. rewrite N. simpl. now rewrite IH.
Qed.

Lemma entry_tags_spec_witness :
  entry_tags ["cs.CL"; "cs.AI"; "cs.CL"; "stat.ML"]
  = tags_as_claimed ["cs.CL"; "cs.AI"; "cs.CL"; "stat.ML"].
Proof.
  apply (entry_tags_spec ["cs.CL"; "cs.AI"; "cs.CL"; "stat.ML"]).
  repeat constructor; discriminate.
Defined.

(** ** Loading the store never fails *)

(** C9. [load_existing] never raises, whatever the file and the decoder
    do: it returns the empty collection when the file is absent, when it
    cannot be read, and when its content does not decode; otherwise it
    returns the decoded document. *)
Theorem load_existing_never_raises
        (json_load : string -> result (list entry)) (f : store_file) :
  (exists v, load_existing json_load f = Ok v)
  /\ (path_exists f = false -> load_existing json_load f = Ok [])
  /\ (forall e, read_text f = Raise e -> load_existing json_load f = Ok [])
  /\ (forall text e, read_text f = Ok text -> json_load text = Raise e ->
                     load_existing json_load f = Ok [])
  /\ (forall text v, path_exists f = true -> read_text f = Ok text ->
                     json_load text = Ok v ->
                     load_existing json_load f = Ok v).
Proof.
  unfold load_existing, try_except, bind.
  destruct (path_exists f); simpl.
  - destruct (read_text f) as [text | e].
    + destruct (json_load text) as [v | e] eqn:J.
      * split; [now exists v |]. split; [discriminate |].
        split; [discriminate |]. split.
        -- intros ? ? [= <-]. congruence.
        -- intros ? ? _ [= <-]. congruence.
      * split; [now exists [] |]. repeat split; auto. 
        intros ? ? _ [= <-]. congruence.
    + split; [now exists [] |]. repeat split; auto; discriminate.
  - split; [now exists [] |]. repeat split; auto; discriminate.
Qed.

Lemma load_existing_never_raises_witness :
  load_existing decode_empty_array absent_file = Ok []
  /\ load_existing decode_empty_array unreadable_file = Ok []
  /\ load_existing decode_empty_array corrupt_file = Ok [].
Proof.
  split; [| split].
  - apply (load_existing_never_raises decode_empty_array absent_file).
    reflexivity.
  - apply (load_existing_never_raises decode_empty_array unreadable_file)
      with (e := OSError).
    reflexivity.
  - apply (load_existing_never_raises decode_empty_array corrupt_file)
      with (text := "[{") (e := JSONDecodeError); reflexivity.
Defined.

(** ** More on the store merger *)

(** X1. No record without a usable id survives a merge: every record of
    the result carries a non-empty [id], whatever the existing collection
    and the batch hold. *)
Theorem merge_keeps_only_identified (old new : list entry) :
  Forall (fun x => exists k, id x = Some k /\ k <> "")
         (merge_and_dedupe old new).
Proof.
  apply Forall_forall. intros x I.
  destruct (merge_and_dedupe_keyed _ _ _ I) as [k E].
  exists k. now apply id_key_id.
Qed.

Lemma sorted_words_desc (l : list entry) :
  StronglySorted date_then_fetched_desc l -> StronglySorted desc l.
Proof.
  induction 1 as [|x l Hs IH Hx]; constructor; auto.
  eapply Forall_impl; [| exact Hx]. intros y. apply desc_in_words.
Qed.

Lemma merge_held (store new : list entry) :
  distinct_ids store ->
  StronglySorted date_then_fetched_desc store ->
  List.length store <= KEEP_MAX ->
  (forall e k, In e new -> id_key e = Some k ->
               exists x, In x store /\ id_key x = Some k
                         /\ PyStr.gt (get_or_empty (fetched_at e))
                                     (get_or_empty (fetched_at x)) = false) ->
  merge_and_dedupe store new = store.
Proof.
  intros D S L Held.
  assert (merged_by_id store new = map kv store) as Same.
  { unfold merged_by_id. rewrite index_by_id_distinct by assumption.
    apply fold_left_fixed. intros e I. unfold merge_step.
    destruct (id_key e) as [k|] eqn:E; auto.
    destruct (Held e k I E) as [x [Ix [Ex G]]].
    now rewrite (get_map_kv store x k D Ix Ex), G. }
  unfold merge_and_dedupe. rewrite Same, values_map_kv.
  rewrite sort_desc_fixed by now apply sorted_words_desc.
  now apply firstn_all2.
Qed.

(** X2. A well-formed store (distinct non-empty ids, sorted, within the
    cap) is left exactly as it is by a batch that brings nothing newer:
    every record of the batch with an id has that id in the store already,
    with a [fetched_at] that is not strictly greater. The empty batch is
    the first case of this. *)
Theorem merge_nothing_newer (store new : list entry) :
  distinct_ids store ->
  StronglySorted date_then_fetched_desc store ->
  List.length store <= KEEP_MAX ->
  (forall e k, In e new -> id_key e = Some k ->
               exists x, In x store /\ id_key x = Some k
                         /\ PyStr.gt (get_or_empty (fetched_at e))
                                     (get_or_empty (fetched_at x)) = false) ->
  merge_and_dedupe store new = store.
Proof.
  intros D S L Held. now apply merge_held.
Qed.

Lemma merge_nothing_newer_witness :
  merge_and_dedupe [other_paper; stored] [refetched_older]
  = [other_paper; stored]
  /\ merge_and_dedupe [other_paper; stored] [] = [other_paper; stored].
Proof.
  assert (distinct_ids [other_paper; stored]) as D.
  { split.
    - repeat constructor; simpl; intuition discriminate.
    - repeat constructor; discriminate. }
  assert (StronglySorted date_then_fetched_desc [other_paper; stored]) as S.
  { repeat constructor. }
  assert (List.length [other_paper; stored] <= KEEP_MAX) as L
      by (vm_compute; lia).
  split.
  - apply (merge_nothing_newer [other_paper; stored] [refetched_older] D S L).
    intros e k [<- | []] E. exists stored.
    split; [simpl; auto | split; [exact E | reflexivity]].
  - apply (merge_nothing_newer [other_paper; stored] [] D S L).
    intros e k [].
Defined.

(** X3. The record kept for an id is the newest seen for it: no record of
    the batch with that id, and not the record the existing collection
    held under it, has a strictly greater [fetched_at]. *)
Theorem kept_record_is_newest (old new : list entry) :
  Forall (fun x =>
            (forall e, In e new -> id_key e = id_key x ->
                       PyStr.gt (get_or_empty (fetched_at e))
                                (get_or_empty (fetched_at x)) = false)
            /\ (forall k cur, id_key x = Some k -> holder k old = Some cur ->
                              PyStr.gt (get_or_empty (fetched_at cur))
                                       (get_or_empty (fetched_at x)) = false))
         (merge_and_dedupe old new).
Proof.
  apply Forall_forall. intros x I.
  destruct (merge_and_dedupe_keyed _ _ _ I) as [k K].
  pose proof (merge_and_dedupe_get _ _ _ _ I K) as G.
  split.
  - intros e Ie E. rewrite K in E.
    destruct (merged_by_id_newest old new e k Ie E) as [cur [G' N]].
    rewrite G in G'. now injection G' as <-.
  - intros k' cur K' H. rewrite K in K'. injection K' as <-.
    rewrite get_merged_by_id in G. unfold winner in G. rewrite H in G.
    destruct (fold_pick_some (filter (has_key k) new) cur) as [c [E N]].
    rewrite G in E. injection E as <-. exact N.
Qed.

(** *** The keys of the lookup tables, in order *)

Lemma first_seen_in (l : list string) (x : string) :
  In x (first_seen l) <-> In x l.
Proof.
  induction l as [|y l IH]; simpl; [tauto |].
  rewrite filter_In, IH, negb_true_iff, String.eqb_neq.
  destruct (String.string_dec y x); intuition congruence.
Qed.

Lemma existsb_eqb_in (x : string) (l : list string) :
  existsb (String.eqb x) l = true <-> In x l.
Proof.
  rewrite existsb_exists. split.
  - intros [y [I E]]. apply String.eqb_eq in E. now subst.
  - intros I. exists x. split; auto. apply String.eqb_refl.
Qed.

Lemma mem_keys (k : string) (d : Dict.t entry) :
  Dict.mem k d = existsb (String.eqb k) (Dict.keys d).
Proof.
  unfold Dict.mem. destruct (Dict.get k d) eqn:G.
  - symmetry. apply existsb_eqb_in.
    apply DictFacts.get_some_in in G.
    change k with (fst (k, e)). now apply in_map.
  - symmetry. apply not_true_iff_false. rewrite existsb_eqb_in.
    now apply DictFacts.get_none_notin.
Qed.

(** A store to [k] adds the key at the end, or leaves the keys alone. *)
Lemma keys_setitem (k : string) (e : entry) (d : Dict.t entry) :
  Dict.keys (Dict.setitem k e d)
  = (Dict.keys d ++ if Dict.mem k d then [] else [k])%list.
Proof.
  unfold Dict.mem. destruct (Dict.get k d) eqn:G.
  - rewrite app_nil_r. apply DictFacts.keys_setitem_present. congruence.
  - rewrite DictFacts.setitem_new by assumption.
    unfold Dict.keys. now rewrite map_app.
Qed.

Lemma index_step_keys : appends_new_keys index_step.
Proof.
  intros d e. unfold index_step. destruct (id_key e) as [k|].
  - apply keys_setitem.
  - now rewrite app_nil_r.
Qed.

Lemma merge_step_keys : appends_new_keys merge_step.
Proof.
  intros d e. unfold merge_step. destruct (id_key e) as [k|].
  - unfold Dict.mem. destruct (Dict.get k d) as [cur|] eqn:G.
    + destruct (PyStr.gt _ _); [| now rewrite app_nil_r].
      rewrite keys_setitem. unfold Dict.mem. now rewrite G.
    + rewrite keys_setitem. unfold Dict.mem. now rewrite G.
  - now rewrite app_nil_r.
Qed.

Lemma uniq_step_keys : appends_new_keys uniq_step.
Proof.
  intros d e. unfold uniq_step. destruct (id_key e) as [k|].
  - destruct (Dict.mem k d) eqn:M; [now rewrite app_nil_r |].
    rewrite keys_setitem. now rewrite M.
  - now rewrite app_nil_r.
Qed.

Lemma fold_step_keys (step : Dict.t entry -> entry -> Dict.t entry) :
  appends_new_keys step ->
  forall l d,
    Dict.keys (fold_left step l d)
    = (Dict.keys d
       ++ filter (fun k => negb (existsb (String.eqb k) (Dict.keys d)))
                 (first_seen (truthy_ids l)))%list.
Proof.
  intros Hs. induction l as [|e l IH]; intros d; simpl.
  - now rewrite app_nil_r.
  - rewrite IH, Hs. destruct (id_key e) as [k|]; simpl.
    + rewrite mem_keys.
      destruct (existsb (String.eqb k) (Dict.keys d)) eqn:M; simpl.
      * rewrite app_nil_r. f_equal. symmetry. apply filter_narrower.
        intros y Hy. apply negb_true_iff. apply negb_true_iff in Hy.
        destruct (String.eqb_spec y k); congruence.
      * rewrite <- app_assoc. simpl. do 2 f_equal.
        rewrite <- filter_both. apply filter_ext. intros y.
        rewrite existsb_app. simpl.
        now rewrite orb_false_r, negb_orb, andb_comm.
    + now rewrite !app_nil_r.
Qed.

Lemma first_seen_app (a b : list string) :
  first_seen (a ++ b)
  = (first_seen a
     ++ filter (fun k => negb (existsb (String.eqb k) a)) (first_seen b))%list.
Proof.
  induction a as [|x a IH]; simpl.
  - symmetry. apply forallb_filter_id, forallb_forall. reflexivity.
  - rewrite IH, filter_app. do 2 f_equal.
    rewrite <- filter_both. apply filter_ext. intros y.
    now rewrite negb_orb, andb_comm.
Qed.

Lemma filter_unseen_first_seen (a l : list string) :
  filter (fun k => negb (existsb (String.eqb k) (first_seen a))) l
  = filter (fun k => negb (existsb (String.eqb k) a)) l.
Proof.
  apply filter_ext. intros y. f_equal.
  destruct (existsb (String.eqb y) a) eqn:E.
  - apply existsb_eqb_in. apply first_seen_in. now apply existsb_eqb_in.
  - apply not_true_iff_false. rewrite existsb_eqb_in, first_seen_in.
    rewrite <- existsb_eqb_in. congruence.
Qed.

Lemma truthy_ids_app (a b : list entry) :
  truthy_ids (a ++ b) = (truthy_ids a ++ truthy_ids b)%list.
Proof. unfold truthy_ids. apply flat_map_app. Qed.

Lemma index_by_id_keys (old : list entry) :
  Dict.keys (index_by_id old) = first_seen (truthy_ids old).
Proof.
  unfold index_by_id. rewrite (fold_step_keys _ index_step_keys). simpl.
  apply forallb_filter_id, forallb_forall. reflexivity.
Qed.

(** The keys of [by_id] after the loop: the ids of the existing collection
    and then of the batch, each where it was first seen. *)
Lemma merged_by_id_keys (old new : list entry) :
  Dict.keys (merged_by_id old new) = first_seen (truthy_ids (old ++ new)).
Proof.
  unfold merged_by_id.
  rewrite (fold_step_keys _ merge_step_keys), index_by_id_keys.
  now rewrite truthy_ids_app, first_seen_app, filter_unseen_first_seen.
Qed.

(** X4. The merged collection has one record for every distinct non-empty
    id of the existing collection and the batch, up to the cap: its length
    is the smaller of [KEEP_MAX] and the number of these ids. *)
Theorem merge_size (old new : list entry) :
  List.length (merge_and_dedupe old new)
  = Nat.min KEEP_MAX (List.length (first_seen (truthy_ids (old ++ new)))).
Proof.
  unfold merge_and_dedupe. rewrite length_firstn. f_equal.
  rewrite <- (Permutation_length (sort_desc_perm _)).
  rewrite <- merged_by_id_keys. unfold Dict.values, Dict.keys.
  now rewrite !length_map.
Qed.

(** X5. The run's deduplication keeps one record for every distinct
    non-empty id, in the order in which the ids first appear, and the
    record kept is the first one with that id; records without an id are
    dropped. *)
Theorem new_list_first_of_each_id (all_new : list entry) :
  map id_key (new_list all_new) = map Some (first_seen (truthy_ids all_new))
  /\ Forall (fun x => exists k, id_key x = Some k
                                /\ find (has_key k) all_new = Some x)
            (new_list all_new).
Proof.
  split.
  - unfold new_list. rewrite well_keyed_id_keys.
    + rewrite (fold_step_keys _ uniq_step_keys). simpl. f_equal.
      apply forallb_filter_id, forallb_forall. reflexivity.
    + apply fold_left_invariant; [apply uniq_step_well_keyed |].
      apply well_keyed_empty.
  - apply Forall_forall. intros x I.
    pose proof (new_list_distinct all_new) as [_ F].
    rewrite Forall_forall in F. specialize (F x I).
    destruct (id_key x) as [k|] eqn:K; [| congruence].
    exists k. split; auto. now apply new_list_first_seen.
Qed.

(** ** The run *)

Lemma collect_from (results : list (result (list entry)))
      (acc : list entry) :
  fold_left collect_step results acc = (acc ++ fetched results)%list.
Proof.
  revert acc. induction results as [|r rs IH]; intros acc; simpl.
  - now rewrite app_nil_r.
  - rewrite IH. destruct r; simpl; [now rewrite app_assoc | reflexivity].
Qed.

Lemma collect_fetched (results : list (result (list entry))) :
  collect results = fetched results.
Proof. unfold collect. now rewrite collect_from. Qed.

Lemma load_existing_ok (json_load : string -> result (list entry))
      (store : store_file) :
  load_existing json_load store = Ok (loaded json_load store).
Proof.
  unfold loaded, load_existing, try_except, bind.
  destruct (path_exists store); simpl; auto.
  destruct (read_text store) as [text|]; auto.
  now destruct (json_load text).
Qed.

Lemma main_merged_eq (parse : string -> option pydate)
      (json_load : string -> result (list entry)) (yesterday : pydate)
      (store : store_file) (results : list (result (list entry))) :
  main_merged parse json_load yesterday store results
  = Ok (merge_and_dedupe
          (loaded json_load store)
          (new_list_filtered parse yesterday (new_list (fetched results)))).
Proof.
  unfold main_merged. rewrite load_existing_ok, collect_fetched.
  reflexivity.
Qed.

(** X6. A query that raises costs the run nothing but its own records:
    the collection [main] saves is the one it would save had the failing
    query not been in the list. *)
Theorem failed_query_is_skipped
        (parse : string -> option pydate)
        (json_load : string -> result (list entry)) (yesterday : pydate)
        (store : store_file)
        (before after : list (result (list entry))) (e : exn) :
  main_merged parse json_load yesterday store (before ++ Raise e :: after)
  = main_merged parse json_load yesterday store (before ++ after).
Proof.
  rewrite !main_merged_eq. unfold fetched.
  now rewrite !flat_map_app.
Qed.


(** X8. When the store file is absent, cannot be read or does not decode,
    the run saves the day's batch alone, sorted and cut at the cap: what
    the file held before is not carried over. *)
Theorem lost_store_is_replaced
        (parse : string -> option pydate)
        (json_load : string -> result (list entry)) (yesterday : pydate)
        (store : store_file) (results : list (result (list entry))) :
  path_exists store = false
  \/ (exists e, read_text store = Raise e)
  \/ (exists text e, read_text store = Ok text /\ json_load text = Raise e) ->
  main_merged parse json_load yesterday store results
  = Ok (firstn KEEP_MAX
               (sort_desc (new_list_filtered parse yesterday
                                             (new_list (fetched results))))).
Proof.
  intros H. rewrite main_merged_eq.
  assert (loaded json_load store = []) as ->.
  { unfold loaded, load_existing, try_except, bind.
    destruct H as [-> | [[e ->] | [text [e [-> ->]]]]]; simpl; auto.
    now destruct (path_exists store).
    now destruct (path_exists store). }
  unfold merge_and_dedupe. rewrite merged_by_id_empty, values_map_kv; auto.
  apply distinct_ids_filter, new_list_distinct.
Qed.

Lemma lost_store_is_replaced_witness :
  main_merged Iso.fromisoformat_date decode_empty_array day_26 corrupt_file
              [Ok [dated_27; dated_26]; Raise OSError; Ok [undated; dated_26]]
  = Ok [dated_26].
Proof.
  rewrite (lost_store_is_replaced
             Iso.fromisoformat_date decode_empty_array day_26 corrupt_file
             [Ok [dated_27; dated_26]; Raise OSError; Ok [undated; dated_26]]).
  - reflexivity.
  - right. right. exists "[{", JSONDecodeError. split; reflexivity.
Defined.



(** ** The record normalizer *)

(** *** Stripping *)

Lemma rstrip_idem (s : string) : PyStr.rstrip (PyStr.rstrip s) = PyStr.rstrip s.
Proof.
  induction s as [|a s IH]; simpl; auto.
  destruct (PyStr.is_space a && (PyStr.rstrip s =? "")) eqn:E; simpl; auto.
  now rewrite IH, E.
Qed.

Lemma lstrip_no_lead (s : string) :
  match PyStr.lstrip s with
  | String a _ => PyStr.is_space a = false
  | EmptyString => True
  end.
Proof.
  induction s as [|a s IH]; simpl; auto.
  destruct (PyStr.is_space a) eqn:E; auto.
Qed.

Lemma no_lead_lstrip (s : string) :
  match s with
  | String a _ => PyStr.is_space a = false
  | EmptyString => True
  end ->
  PyStr.lstrip s = s.
Proof. destruct s as [|a s]; simpl; auto. now intros ->. Qed.

Lemma lstrip_strip (s : string) :
  PyStr.lstrip (PyStr.strip s) = PyStr.strip s.
Proof.
  unfold PyStr.strip. pose proof (lstrip_no_lead s) as H.
  destruct (PyStr.lstrip s) as [|a r]; auto.
  simpl. rewrite H. simpl. now rewrite H.
Qed.

Lemma rstrip_strip (s : string) :
  PyStr.rstrip (PyStr.strip s) = PyStr.strip s.
Proof. apply rstrip_idem. Qed.

Lemma strip_idem (s : string) : PyStr.strip (PyStr.strip s) = PyStr.strip s.
Proof.
  unfold PyStr.strip at 1. now rewrite lstrip_strip, rstrip_strip.
Qed.

(** *** Characters a cut or a replacement cannot bring in *)

Lemma contains_app (c : ascii) (a b : string) :
  PyStr.contains c (a ++ b) = PyStr.contains c a || PyStr.contains c b.
Proof.
  induction a as [|x a IH]; simpl; auto. now rewrite IH, orb_assoc.
Qed.

Lemma contains_lstrip (c : ascii) (s : string) :
  PyStr.contains c s = false -> PyStr.contains c (PyStr.lstrip s) = false.
Proof.
  induction s as [|a s IH]; simpl; auto.
  intros H. apply orb_false_iff in H as [H1 H2].
  destruct (PyStr.is_space a); simpl; auto. now rewrite H1, H2.
Qed.

Lemma contains_rstrip (c : ascii) (s : string) :
  PyStr.contains c s = false -> PyStr.contains c (PyStr.rstrip s) = false.
Proof.
  induction s as [|a s IH]; simpl; auto.
  intros H. apply orb_false_iff in H as [H1 H2].
  destruct (PyStr.is_space a && _); simpl; auto. now rewrite H1, IH.
Qed.

Lemma contains_strip (c : ascii) (s : string) :
  PyStr.contains c s = false -> PyStr.contains c (PyStr.strip s) = false.
Proof. intros H. now apply contains_rstrip, contains_lstrip. Qed.

Lemma contains_replace (c : ascii) (by_ s : string) :
  PyStr.contains c by_ = false ->
  PyStr.contains c (PyStr.replace c by_ s) = false.
Proof.
  intros H. induction s as [|a s IH]; simpl; auto.
  destruct (Ascii.eqb_spec a c) as [-> | N]; simpl.
  - now rewrite contains_app, H, IH.
  - rewrite IH. apply Ascii.eqb_neq in N. now rewrite N.
Qed.

Lemma safe_text_strip (e : elem) : PyStr.strip (safe_text e) = safe_text e.
Proof. destruct e as [text|]; simpl; auto. apply strip_idem. Qed.

(** X10. [safe_text] gives the empty string for a missing element and for
    one without text, and otherwise a text that stripping leaves alone, on
    either side. *)
Theorem safe_text_is_stripped (e : elem) :
  safe_text None = ""
  /\ safe_text (Some None) = ""
  /\ PyStr.lstrip (safe_text e) = safe_text e
  /\ PyStr.rstrip (safe_text e) = safe_text e
  /\ PyStr.strip (safe_text e) = safe_text e.
Proof.
  split; [reflexivity |]. split; [reflexivity |].
  destruct e as [text|]; simpl; auto.
  split; [apply lstrip_strip |]. split; [apply rstrip_strip |].
  apply strip_idem.
Qed.

(** X11. The title and the abstract of a record hold no newline and no
    surrounding whitespace, and the author names are non-empty and
    stripped. *)
Theorem text_fields_normalized
        (parse : string -> option pydate) (iso : pydate -> string)
        (x : atom_entry) (now : string) :
  let e := entry_obj parse iso x now in
  PyStr.contains "010" (title e) = false
  /\ PyStr.strip (title e) = title e
  /\ PyStr.contains "010" (abstract e) = false
  /\ PyStr.strip (abstract e) = abstract e
  /\ Forall (fun a => a <> "" /\ PyStr.strip a = a) (authors e).
Proof.
  simpl. unfold one_line.
  repeat split; try apply strip_idem;
    try (apply contains_strip, contains_replace; reflexivity).
  unfold authors_of. apply Forall_forall. intros a I.
  apply filter_In in I as [I T]. split.
  - intros ->. discriminate T.
  - apply in_map_iff in I as [au [<- _]].
    apply safe_text_strip.
Qed.

(** *** The id and the link *)

Lemma rsplit1_last (sep : ascii) (s : string) :
  (PyStr.contains sep s = false -> rsplit1 sep s = [s])
  /\ (PyStr.contains sep s = true ->
      exists h t, rsplit1 sep s = [h; t]
                  /\ s = h ++ String sep t
                  /\ PyStr.contains sep t = false).
Proof.
  induction s as [|a s [IH0 IH1]]; simpl.
  - split; [reflexivity | discriminate].
  - destruct (PyStr.contains sep s) eqn:C.
    + rewrite orb_true_r. split; [discriminate |]. intros _.
      destruct (IH1 eq_refl) as [h [t [-> [E T]]]].
      exists (String a h), t. simpl. now rewrite <- E.
    + rewrite orb_false_r, (IH0 eq_refl).
      destruct (Ascii.eqb_spec a sep) as [-> | N].
      * split; [discriminate |]. intros _. now exists "", s.
      * split; [reflexivity | discriminate].
Qed.

(** X12. The [id] of a record is what follows the last [/] of the feed's
    id text: it holds no [/], and the id text is the id itself or ends in
    [/] and the id. There is no [id] exactly when the feed has no id
    text. *)
Theorem entry_id_is_last_segment
        (parse : string -> option pydate) (iso : pydate -> string)
        (x : atom_entry) (now : string) :
  let raw_id := safe_text (atom_id x) in
  match id (entry_obj parse iso x now) with
  | None => raw_id = ""
  | Some i =>
      raw_id <> ""
      /\ PyStr.contains "/" i = false
      /\ (raw_id = i \/ exists p, raw_id = p ++ String "/" i)
  end.
Proof.
  simpl. unfold arxiv_id_of.
  destruct (PyStr.truthy (safe_text (atom_id x))) eqn:T.
  - split; [intros E; rewrite E in T; discriminate T |].
    destruct (PyStr.contains "/" (safe_text (atom_id x))) eqn:C.
    + destruct (proj2 (rsplit1_last "/" _) C) as [h [t [-> [E N]]]].
      simpl. split; [exact N | right; now exists h].
    + rewrite (proj1 (rsplit1_last "/" _) C). simpl. auto.
  - now apply truthy_empty.
Qed.

(** X13. The [link] of a record is never the empty string; it is the
    [href] of the first link of type [application/pdf] that has one, and
    without such a link it is built from the [id]. A record with a usable
    [id] always has a [link]. *)
Theorem entry_link_is_usable
        (parse : string -> option pydate) (iso : pydate -> string)
        (x : atom_entry) (now : string) :
  let e := entry_obj parse iso x now in
  link e <> Some ""
  /\ (id_key e <> None -> link e <> None)
  /\ (forall l, find is_pdf_link (atom_links x) = Some l ->
                link e = link_href l)
  /\ (forall k, find is_pdf_link (atom_links x) = None ->
                id_key e = Some k ->
                link e = Some ("https://arxiv.org/pdf/" ++ k)).
Proof.
  simpl. unfold pdf_link_of, id_key. simpl.
  set (i := arxiv_id_of (safe_text (atom_id x))).
  destruct (find is_pdf_link (atom_links x)) as [l|] eqn:F.
  - apply find_some in F as [_ P]. unfold is_pdf_link in P.
    apply andb_true_iff in P as [_ P].
    destruct (link_href l) as [h|] eqn:H; simpl in *; [| discriminate P].
    repeat split; try discriminate.
    + intros [= ->]. discriminate P.
    + intros l' [= <-]. now rewrite H.
  - destruct i as [i|]; [destruct (PyStr.truthy i) eqn:T |];
      repeat split; try discriminate; try congruence.
Qed.

(** *** The tags *)

Lemma entry_tags_stripped (cats : list string) :
  entry_tags cats = tags_stripped cats.
Proof.
  unfold entry_tags, tags_clean, raw_tags, tags_stripped.
  rewrite tags_clean_from, raw_tags_from. simpl.
  apply forallb_filter_id, forallb_forall. reflexivity.
Qed.

Lemma truthy_iff (s : string) : PyStr.truthy s = true <-> s <> "".
Proof.
  unfold PyStr.truthy. rewrite negb_true_iff. apply String.eqb_neq.
Qed.

(** X14. A string is a tag of a record exactly when it is not empty and is
    the stripped form of a non-empty category code, or of what follows the
    last dot of such a code; so every tag is non-empty and stripped. *)
Theorem entry_tags_members (cats : list string) :
  (forall t, In t (entry_tags cats) <->
             t <> ""
             /\ exists c, In c cats /\ c <> ""
                          /\ (t = PyStr.strip c
                              \/ (PyStr.contains "." c = true
                                  /\ t = PyStr.strip (suffix c))))
  /\ Forall (fun t => t <> "" /\ PyStr.strip t = t) (entry_tags cats).
Proof.
  assert (forall t, In t (entry_tags cats) <->
             t <> ""
             /\ exists c, In c cats /\ c <> ""
                          /\ (t = PyStr.strip c
                              \/ (PyStr.contains "." c = true
                                  /\ t = PyStr.strip (suffix c)))) as M.
  { intros t. rewrite entry_tags_stripped. unfold tags_stripped.
    rewrite first_seen_in, filter_In, in_map_iff, truthy_iff. split.
    - intros [[r [<- I]] N]. split; auto.
      apply in_flat_map in I as [c [Ic Ie]].
      apply filter_In in Ic as [Ic T]. apply truthy_iff in T.
      exists c. split; auto. split; auto. unfold emit in Ie.
      destruct (PyStr.contains "." c); simpl in Ie.
      + destruct Ie as [<- | [<- | []]]; auto.
      + destruct Ie as [<- | []]; auto.
    - intros [N [c [Ic [Nc H]]]]. split; auto.
      assert (In c (filter PyStr.truthy cats)) as Ic'
          by (apply filter_In; split; auto; now apply truthy_iff).
      destruct H as [-> | [C ->]].
      + exists c. split; auto. apply in_flat_map. exists c. split; auto.
        unfold emit. destruct (PyStr.contains "." c); now left.
      + exists (suffix c). split; auto. apply in_flat_map.
        exists c. split; auto. unfold emit. rewrite C. simpl. auto. }
  split; [exact M |]. apply Forall_forall. intros t I.
  apply M in I as [N [c [_ [_ H]]]]. split; auto.
  destruct H as [-> | [_ ->]]; apply strip_idem.
Qed.

(** *** The institution *)

Lemma insert_asc_comm (x y : string) (l : list string) :
  insert_asc x (insert_asc y l) = insert_asc y (insert_asc x l).
Proof.
  induction l as [|z l IH]; simpl.
  - destruct (PyStr.lt y x) eqn:A, (PyStr.lt x y) eqn:B; auto.
    + rewrite (str_lt_asym _ _ A) in B. discriminate.
    + destruct (str_trichotomy x y) as [H | [-> | H]]; congruence.
  - destruct (PyStr.lt z y) eqn:Zy, (PyStr.lt z x) eqn:Zx; simpl;
      rewrite ?Zy, ?Zx.
    + now rewrite IH.
    + destruct (str_lt_cotrans z x y Zy) as [H | H]; [congruence |].
      now rewrite H.
    + destruct (str_lt_cotrans z y x Zx) as [H | H]; [congruence |].
      now rewrite H.
    + destruct (PyStr.lt y x) eqn:A, (PyStr.lt x y) eqn:B; auto.
      * rewrite (str_lt_asym _ _ A) in B. discriminate.
      * destruct (str_trichotomy x y) as [H | [-> | H]]; congruence.
Qed.

(** [sorted] does not depend on the order in which a set is listed. *)
Lemma sorted_permutation (l l' : list string) :
  Permutation l l' -> sorted l = sorted l'.
Proof.
  induction 1; simpl; auto.
  - now f_equal.
  - apply insert_asc_comm.
  - congruence.
Qed.

Lemma insert_asc_perm (x : string) (l : list string) :
  Permutation (x :: l) (insert_asc x l).
Proof.
  induction l as [|y l IH]; simpl; auto.
  destruct (PyStr.lt y x); auto.
  rewrite perm_swap. now constructor.
Qed.

Lemma sorted_perm (l : list string) : Permutation l (sorted l).
Proof.
  induction l as [|x l IH]; simpl; auto.
  rewrite <- insert_asc_perm. now constructor.
Qed.

Lemma set_add_in (x y : string) (s : list string) :
  In y (set_add x s) <-> y = x \/ In y s.
Proof.
  unfold set_add. destruct (existsb (String.eqb x) s) eqn:E.
  - apply existsb_eqb_in in E. split; auto. intros [-> | I]; auto.
  - rewrite in_app_iff. simpl. intuition.
Qed.

Lemma set_add_nodup (x : string) (s : list string) :
  NoDup s -> NoDup (set_add x s).
Proof.
  intros ND. unfold set_add. destruct (existsb (String.eqb x) s) eqn:E; auto.
  apply NoDup_app; auto.
  - repeat constructor. simpl. tauto.
  - intros a Ia [<- | []].
    apply existsb_eqb_in in Ia. congruence.
Qed.

Lemma strip_empty : PyStr.strip "" = "".
Proof. reflexivity. Qed.

Lemma affiliation_step_in (s : list string) (a : atom_author) (t : string) :
  In t (affiliation_step s a) <-> In t s \/ declared a t.
Proof.
  unfold affiliation_step, declared.
  destruct (author_affiliation a) as [[text|]|].
  - destruct (PyStr.truthy text) eqn:T1; simpl.
    + destruct (PyStr.truthy (PyStr.strip text)) eqn:T2.
      * rewrite set_add_in. apply truthy_iff in T2. split.
        -- intros [-> | I]; auto. right. now exists text.
        -- intros [I | [text' [[= <-] [-> _]]]]; auto.
      * split; auto. intros [I | [text' [[= <-] [-> N]]]]; auto.
        apply truthy_iff in N. congruence.
    + split; auto. intros [I | [text' [[= <-] [-> N]]]]; auto.
      apply truthy_empty in T1. subst text. now elim N.
  - split; auto. intros [I | [text' [[=] _]]]; auto.
  - split; auto. intros [I | [text' [[=] _]]]; auto.
Qed.

Lemma affiliations_from (l : list atom_author) (s : list string)
      (t : string) :
  In t (fold_left affiliation_step l s)
  <-> In t s \/ exists a, In a l /\ declared a t.
Proof.
  revert s. induction l as [|a l IH]; intros s; simpl.
  - split; auto. intros [I | [a [[] _]]]; auto.
  - rewrite IH, affiliation_step_in. split.
    + intros [[I | D] | [b [Ib D]]]; eauto.
    + intros [I | [b [[<- | Ib] D]]]; eauto.
Qed.

Lemma affiliations_in (l : list atom_author) (t : string) :
  In t (affiliations_of l) <-> exists a, In a l /\ declared a t.
Proof.
  unfold affiliations_of. rewrite affiliations_from. simpl. tauto.
Qed.

Lemma affiliations_nodup (l : list atom_author) :
  NoDup (affiliations_of l).
Proof.
  unfold affiliations_of. apply fold_left_invariant; [| constructor].
  intros s a ND. unfold affiliation_step.
  destruct (author_affiliation a) as [[text|]|]; auto.
  destruct (PyStr.truthy text && _); auto. now apply set_add_nodup.
Qed.

Lemma concat_nonempty (sep x : string) (l : list string) :
  x <> "" -> String.concat sep (x :: l) <> "".
Proof.
  intros N. destruct x as [|a x]; [now elim N |].
  destruct l; simpl; discriminate.
Qed.

(** X15. When an author of the entry declares an affiliation that is not
    blank, the [institution] is the sorted, comma-joined list of the
    declared affiliations, and title and abstract are not looked at. *)
Theorem declared_affiliations_win
        (parse : string -> option pydate) (iso : pydate -> string)
        (x : atom_entry) (now : string) :
  (exists a t, In a (atom_authors x) /\ declared a t) ->
  institution (entry_obj parse iso x now)
  = String.concat ", " (sorted (affiliations_of (atom_authors x)))
    /\ institution (entry_obj parse iso x now) <> "".
Proof.
  intros [a [t [Ia D]]]. simpl. unfold institution_of.
  assert (In t (affiliations_of (atom_authors x))) as I
      by (apply affiliations_in; eauto).
  destruct (affiliations_of (atom_authors x)) as [|y l] eqn:A; [easy |].
  assert (String.concat ", " (sorted (y :: l)) <> "") as N.
  { pose proof (sorted_perm (y :: l)) as P.
    destruct (sorted (y :: l)) as [|z r] eqn:S.
    - apply Permutation_sym, Permutation_nil in P. discriminate.
    - apply concat_nonempty.
      assert (In z (affiliations_of (atom_authors x))) as Iz.
      { rewrite A. eapply Permutation_in; [apply Permutation_sym, P |].
        now left. }
      apply affiliations_in in Iz as [b [_ [text [_ [_ Nz]]]]]. exact Nz. }
  apply truthy_iff in N as T. now rewrite T.
Qed.

Lemma declared_affiliations_win_witness :
  institution (entry_obj Iso.fromisoformat_date isoformat raw_paper
                         "2025-10-27T06:00:00.000000Z")
  = "CMU, MIT".
Proof.
  assert (exists a t, In a (atom_authors raw_paper) /\ declared a t) as D.
  { exists (mkAuthor (Some (Some "B. Author")) (Some (Some "CMU"))), "CMU".
    split; [simpl; auto |]. exists "CMU".
    split; [reflexivity | split; [reflexivity | discriminate]]. }
  destruct (declared_affiliations_win
              Iso.fromisoformat_date isoformat raw_paper
              "2025-10-27T06:00:00.000000Z" D) as [E _].
  rewrite E. reflexivity.
Defined.

(** X16. The [institution] does not depend on the order of the authors. *)
Theorem institution_ignores_author_order
        (authors1 authors2 : list atom_author) (title summary : string) :
  Permutation authors1 authors2 ->
  institution_of (affiliations_of authors1) title summary
  = institution_of (affiliations_of authors2) title summary.
Proof.
  intros P.
  assert (Permutation (affiliations_of authors1) (affiliations_of authors2))
    as Q.
  { apply NoDup_Permutation; try apply affiliations_nodup.
    intros t. rewrite !affiliations_in. split; intros [a [I D]]; exists a.
    - split; auto. eapply Permutation_in; eauto.
    - split; auto. eapply Permutation_in; [apply Permutation_sym |]; eauto. }
  unfold institution_of. rewrite (sorted_permutation _ _ Q).
  destruct (affiliations_of authors1) as [|y l] eqn:A1,
           (affiliations_of authors2) as [|y' l'] eqn:A2; auto.
  all: try (apply Permutation_nil in Q; discriminate Q).
  all: try (apply Permutation_sym, Permutation_nil in Q; discriminate Q).
Qed.

Lemma institution_ignores_author_order_witness :
  institution_of
    (affiliations_of [mkAuthor None (Some (Some "MIT"));
                      mkAuthor None (Some (Some " CMU"))]) "t" "s"
  = institution_of
      (affiliations_of [mkAuthor None (Some (Some " CMU"));
                        mkAuthor None (Some (Some "MIT"))]) "t" "s".
Proof.
  apply institution_ignores_author_order. apply perm_swap.
Defined.

(** *** The date *)

Lemma split_first (c : ascii) (s : string) :
  PyStr.contains c s = true ->
  PyStr.contains c (hd "" (PyStr.split c s)) = false
  /\ exists rest, s = hd "" (PyStr.split c s) ++ String c rest.
Proof.
  induction s as [|a s IH]; simpl; [discriminate |].
  destruct (Ascii.eqb_spec a c) as [-> | N]; simpl.
  - intros _. split; auto. now exists s.
  - intros C. destruct (IH C) as [H [rest E]].
    apply Ascii.eqb_neq in N.
    destruct (PyStr.split c s) as [|h t]; simpl in *.
    + rewrite N. split; auto. exists rest. now rewrite E.
    + rewrite N, H. split; auto. exists rest. now rewrite E at 1.
Qed.

(** X17. The [date] of a record is empty when the feed gives no published
    text; it is the ISO form of the day when the published text parses;
    and otherwise it is the published text up to its first [T], or all of
    it when it has none. *)
Theorem entry_date_cases
        (parse : string -> option pydate) (iso : pydate -> string)
        (x : atom_entry) (now : string) :
  let published := safe_text (atom_published x) in
  exists d,
    date (entry_obj parse iso x now) = Some d
    /\ (published = "" -> d = "")
    /\ (forall day, published <> "" ->
                    parse (PyStr.replace "Z" "+00:00" published) = Some day ->
                    d = iso day)
    /\ (published <> "" ->
        parse (PyStr.replace "Z" "+00:00" published) = None ->
        PyStr.contains "T" d = false
        /\ (d = published \/ exists rest, published = d ++ String "T" rest)).
Proof.
  simpl. eexists. split; [reflexivity |]. unfold date_of.
  set (published := safe_text (atom_published x)).
  destruct (PyStr.truthy published) eqn:T.
  - apply truthy_iff in T. split; [contradiction |].
    destruct (parse (PyStr.replace "Z" "+00:00" published)) as [day|].
    + split; [now intros day' _ [= <-] | discriminate].
    + split; [discriminate |]. intros _ _.
      destruct (PyStr.contains "T" published) eqn:C; auto.
      destruct (split_first "T" published C) as [H E]. auto.
  - apply truthy_empty in T. split; auto. split; contradiction.
Qed.

(** X18. The normalizer and the date filter together: a record built from
    an entry without published text never passes the filter; a record
    built from an entry whose published text parses to a day passes
    exactly when that day is the target day, given that the day's ISO form
    is not empty and parses back to the day. *)
Theorem fresh_record_passes_on_its_day
        (parse : string -> option pydate) (iso : pydate -> string)
        (yesterday : pydate) (x : atom_entry) (now : string) :
  let published := safe_text (atom_published x) in
  let e := entry_obj parse iso x now in
  (published = "" -> from_yesterday parse yesterday e = false)
  /\ (forall day,
         published <> "" ->
         parse (PyStr.replace "Z" "+00:00" published) = Some day ->
         iso day <> "" ->
         parse (iso day) = Some day ->
         (from_yesterday parse yesterday e = true <-> day = yesterday)).
Proof.
  intros published e. unfold from_yesterday.
  change (get_or_empty (date e)) with (date_of parse iso published).
  unfold date_of. split.
  - intros ->. reflexivity.
  - intros day N P I R. apply truthy_iff in N. rewrite N, P.
    apply truthy_iff in I. rewrite I. cbn [negb]. rewrite R.
    apply pydate_eqb_eq.
Qed.

Lemma fresh_record_passes_on_its_day_witness :
  from_yesterday Iso.fromisoformat_date day_26
                 (entry_obj Iso.fromisoformat_date isoformat raw_paper
                            "2025-10-27T06:00:00.000000Z")
  = true.
Proof.
  apply (proj2 (fresh_record_passes_on_its_day
                  Iso.fromisoformat_date isoformat day_26 raw_paper
                  "2025-10-27T06:00:00.000000Z") day_26).
  - discriminate.
  - reflexivity.
  - discriminate.
  - reflexivity.
  - reflexivity.
Defined.

(** *** A batch record that is newer, or new *)

Lemma filter_none {A : Type} (f : A -> bool) (l : list A) :
  (forall y, In y l -> f y = false) -> filter f l = [].
Proof.
  induction l as [|a l IH]; simpl; auto. intros H.
  rewrite (H a) by now left. apply IH. intros y I. apply H. now right.
Qed.

Lemma filter_has_key_single (l : list entry) (e : entry) (k : string) :
  distinct_ids l -> In e l -> id_key e = Some k ->
  filter (has_key k) l = [e].
Proof.
  induction l as [|a l IH]; simpl; [tauto |]. intros D I E.
  pose proof (distinct_ids_tail _ _ D) as D'.
  destruct D as [ND _]. inversion ND as [|? ? NI _]; subst.
  destruct I as [-> | I].
  - rewrite (proj2 (has_key_iff k e) E). f_equal.
    apply filter_none. intros y Iy.
    destruct (has_key k y) eqn:H; auto. apply has_key_iff in H.
    exfalso. apply NI. rewrite E, <- H. now apply in_map.
  - destruct (has_key k a) eqn:H; [| now apply IH].
    apply has_key_iff in H. exfalso. apply NI.
    rewrite H, <- E. now apply in_map.
Qed.

(** X19. In a batch without repeated ids, as [main] passes it, a record
    whose id the existing collection does not hold, or holds with a
    strictly smaller [fetched_at], is the record kept for that id: it is
    the only record of its id in the result, and it is in the result
    unless the cap cut the collection. *)
Theorem newer_record_replaces (old new : list entry) (e : entry)
        (k : string) :
  distinct_ids new ->
  In e new ->
  id_key e = Some k ->
  (forall cur, holder k old = Some cur ->
               PyStr.gt (get_or_empty (fetched_at e))
                        (get_or_empty (fetched_at cur)) = true) ->
  Dict.get k (merged_by_id old new) = Some e
  /\ Forall (fun x => id_key x = Some k -> x = e) (merge_and_dedupe old new)
  /\ (List.length (Dict.values (merged_by_id old new)) <= KEEP_MAX ->
      In e (merge_and_dedupe old new)).
Proof.
  intros D I E Newer.
  assert (Dict.get k (merged_by_id old new) = Some e) as G.
  { rewrite get_merged_by_id. unfold winner.
    rewrite (filter_has_key_single new e k D I E). simpl.
    destruct (holder k old) as [cur|] eqn:H; simpl; auto.
    now rewrite (Newer cur eq_refl). }
  split; [exact G | split].
  - apply Forall_forall. intros x Ix Ex.
    rewrite (merge_and_dedupe_get _ _ _ _ Ix Ex) in G. congruence.
  - intros L. rewrite merge_and_dedupe_uncut by assumption.
    eapply Permutation_in; [apply sort_desc_perm |].
    apply DictFacts.get_some_in in G.
    change e with (snd (k, e)). now apply in_map.
Qed.

Lemma newer_record_replaces_witness :
  merge_and_dedupe [stored] [refetched_newer; other_paper]
  = [other_paper; refetched_newer]
  /\ In refetched_newer
        (merge_and_dedupe [stored] [refetched_newer; other_paper]).
Proof.
  split; [reflexivity |].
  apply (newer_record_replaces [stored] [refetched_newer; other_paper]
                               refetched_newer "2510.00001v1").
  - split.
    + repeat constructor; simpl; intuition discriminate.
    + repeat constructor; discriminate.
  - simpl. auto.
  - reflexivity.
  - intros cur [= <-]. reflexivity.
  - vm_compute. lia.
Defined.
